(** * PowerStats AIDL service (powerstats/PowerStatsAidl.cpp)

    A shallow embedding of the Pixel PowerStats HAL front end: the registry
    of power entities, the four query operations and the text dump with its
    delta mode, followed by the properties of the registry, of the
    state-residency query and of the dump.

    Conventions of the embedding.
    - [int32_t] and [int64_t] values are integers of [Z]; every place where
      the source narrows or does arithmetic in a fixed width applies
      [int32_wrap] or [int64_wrap].
    - [std::vector] is [list]; [operator[]] is the partial lookup [!!], and
      an access out of bounds (undefined behaviour in the source) makes the
      operation return [None].
    - [std::unordered_map] is stdpp's [gmap]; [emplace] keeps an existing
      binding, [at] on a missing key (an uncaught [std::out_of_range]) makes
      the operation return [None].
    - The data providers are external objects that read hardware counters.
      They are records of functions over an abstract world [W] which every
      call threads through explicitly.
    - An out-parameter [_aidl_return] is an argument holding the vector's
      contents at entry together with a result holding them at exit. *)

From Stdlib Require Import ZArith String List Lia.
From stdpp Require Import base tactics option list gmap strings.
From Equations Require Import Equations.
From Equations.Prop Require Import Logic.

Local Open Scope Z_scope.

(** ** Fixed-width integers *)

Definition int32_wrap (z : Z) : Z := (z + 2 ^ 31) mod 2 ^ 32 - 2 ^ 31.

Definition int64_wrap (z : Z) : Z := (z + 2 ^ 63) mod 2 ^ 64 - 2 ^ 63.

Definition is_int32 (z : Z) : Prop := - 2 ^ 31 <= z < 2 ^ 31.

(** ** Floating point

    The rail reports hand [StringPrintf] the value
    [static_cast<float>(x) / 1000.0] of a 64-bit integer [x]. Both steps
    round to nearest, ties to even, the IEEE 754 default: the cast rounds
    to the 24-bit significand of a [float], and the division, carried out
    in [double] because [1000.0] is one, rounds to the 53-bit significand
    of a [double]. *)

(** [num / den] rounded to the nearest integer, ties to even, for
    [0 <= num] and [0 < den]. *)
Definition round_half_even (num den : Z) : Z :=
  let q := num / den in
  let r := num mod den in
  match Z.compare (2 * r) den with
  | Lt => q
  | Gt => q + 1
  | Eq => if Z.even q then q else q + 1
  end.

(** [static_cast<float>(z)]: the [float] nearest to the integer [z], which
    is an integer again. Below 2^24 in magnitude every integer is a
    [float]; above, the low bits beyond the 24 leading ones are rounded
    away. *)
Definition float_of_int64 (z : Z) : Z :=
  let a := Z.abs z in
  let shift := Z.max 0 (Z.log2 a - 23) in
  Z.sgn z * (round_half_even a (2 ^ shift) * 2 ^ shift).

(** A finite [double]: zero is [mkDouble 0 0], any other value is
    [significand * 2 ^ exponent] with [2^52 <= |significand| < 2^53]. *)
Record Double : Set := mkDouble {
  significand : Z;
  exponent : Z;
}.

Definition double_zero : Double := mkDouble 0 0.

(** [f / 1000.0] for a [float] [f] of integer value: the [double] nearest
    to the quotient. With [2^L <= |f| < 2^(L+1)] the quotient lies between
    [2^(L-10)] and [2^(L-8)], so its exponent is [L - 62] or [L - 61]; the
    quotient scaled by that exponent is rounded to an integer, and a
    rounding up to 2^53 moves to the next exponent. *)
Definition div_1000 (f : Z) : Double :=
  if f =? 0 then double_zero
  else
    let a := Z.abs f in
    let scaled (e : Z) : Z * Z :=
      if 0 <=? e then (a, 1000 * 2 ^ e) else (a * 2 ^ (- e), 1000) in
    let e1 := Z.log2 a - 62 in
    let e := if 2 ^ 53 * (scaled e1).2 <=? (scaled e1).1 then e1 + 1 else e1 in
    let m := round_half_even (scaled e).1 (scaled e).2 in
    if m =? 2 ^ 53 then mkDouble (Z.sgn f * 2 ^ 52) (e + 1)
    else mkDouble (Z.sgn f * m) e.

(** [static_cast<float>(uWs) / 1000.0]. *)
Definition toMilliwattSeconds (uWs : Z) : Double :=
  div_1000 (float_of_int64 uWs).

(** ** Status codes

    [binder_status_t] restricted to the three codes this service produces;
    [ndk::ScopedAStatus] is a status wrapped, with [ok ()] the wrapping of
    [STATUS_OK]. *)

Inductive binder_status_t : Set :=
| STATUS_OK
| STATUS_BAD_VALUE
| STATUS_FAILED_TRANSACTION.

#[global] Instance binder_status_eq_dec : EqDecision binder_status_t.
Proof. solve_decision. Defined.

Definition ScopedAStatus : Set := binder_status_t.

Definition ok : ScopedAStatus := STATUS_OK.

Definition fromStatus (s : binder_status_t) : ScopedAStatus := s.

(** ** AIDL parcelables

    Only the fields this file reads are kept. *)

Module PowerEntityStateInfo.
Record t : Set := mk {
  powerEntityStateId : Z;
  powerEntityStateName : string;
}.
End PowerEntityStateInfo.

Module PowerEntityInfo.
Record t : Set := mk {
  powerEntityId : Z;
  powerEntityName : string;
  states : list PowerEntityStateInfo.t;
}.
End PowerEntityInfo.

Module PowerEntityStateResidencyData.
Record t : Set := mk {
  powerEntityStateId : Z;
  totalTimeInStateMs : Z;
  totalStateEntryCount : Z;
  lastEntryTimestampMs : Z;
}.
End PowerEntityStateResidencyData.

Module PowerEntityStateResidencyResult.
Record t : Set := mk {
  powerEntityId : Z;
  stateResidencyData : list PowerEntityStateResidencyData.t;
}.
End PowerEntityStateResidencyResult.

Module RailInfo.
Record t : Set := mk {
  railIndex : Z;
  subsysName : string;
  railName : string;
}.
End RailInfo.

Module EnergyData.
Record t : Set := mk {
  railIndex : Z;
  energyUWs : Z;
}.
End EnergyData.

(** The scratch map that [getResults] fills: entity name to residency data. *)
Abbreviation StateResidencies :=
  (gmap string (list PowerEntityStateResidencyData.t)).

(** ** Provider interfaces *)

Module IStateResidencyDataProvider.
(** [getInfo] is the provider's entity map, listed in the order in which the
    registration loop iterates over it. [getResults] receives a pointer to
    the caller's map and may change it in any way. *)
Record t (W : Type) : Type := mk {
  getInfo : list (string * list PowerEntityStateInfo.t);
  getResults : W -> StateResidencies -> W * StateResidencies;
}.
Arguments mk {W} _ _.
Arguments getInfo {W} _.
Arguments getResults {W} _ _ _.
End IStateResidencyDataProvider.

Module IRailEnergyDataProvider.
Record t (W : Type) : Type := mk {
  getEnergyData :
    W -> list Z -> list EnergyData.t -> W * (list EnergyData.t * ScopedAStatus);
  getRailInfo :
    W -> list RailInfo.t -> W * (list RailInfo.t * ScopedAStatus);
}.
Arguments mk {W} _ _.
Arguments getEnergyData {W} _ _ _ _.
Arguments getRailInfo {W} _ _ _.
End IRailEnergyDataProvider.

(** ** The service object *)

Module PowerStats.

Record t (W : Type) : Type := mk {
  mRailEnergyDataProvider : option (IRailEnergyDataProvider.t W);
  mPowerEntityInfos : list PowerEntityInfo.t;
  mStateResidencyDataProviders : list (IStateResidencyDataProvider.t W);
}.
Arguments mk {W} _ _ _.
Arguments mRailEnergyDataProvider {W} _.
Arguments mPowerEntityInfos {W} _.
Arguments mStateResidencyDataProviders {W} _.

(** The object as constructed: no provider, empty tables. *)
Definition init (W : Type) : t W := mk None [] [].

Section Registry.
Context {W : Type}.

Definition setRailDataProvider (this : t W) (p : IRailEnergyDataProvider.t W)
  : t W :=
  mk (Some p) (mPowerEntityInfos this) (mStateResidencyDataProviders this).

(** The body of the range-for of [addStateResidencyDataProvider]: [id] is the
    running [int32_t] counter, post-incremented once per entity. *)
Fixpoint addEntities (p : IStateResidencyDataProvider.t W)
    (info : list (string * list PowerEntityStateInfo.t)) (id : Z)
    (this : t W) : t W :=
  match info with
  | [] => this
  | (entityName, states) :: rest =>
      let i := PowerEntityInfo.mk id entityName states in
      addEntities p rest (int32_wrap (id + 1))
        (mk (mRailEnergyDataProvider this)
            (mPowerEntityInfos this ++ [i])
            (mStateResidencyDataProviders this ++ [p]))
  end.

Definition addStateResidencyDataProvider (this : t W)
    (p : IStateResidencyDataProvider.t W) : t W :=
  let id := int32_wrap (Z.of_nat (length (mPowerEntityInfos this))) in
  addEntities p (IStateResidencyDataProvider.getInfo p) id this.

(** States of the object that start-up code can build: any interleaving of
    the two registration calls on a fresh object. *)
Inductive registered : t W -> Prop :=
| registered_init : registered (init W)
| registered_rail this p :
    registered this -> registered (setRailDataProvider this p)
| registered_residency this p :
    registered this -> registered (addStateResidencyDataProvider this p).

(** The two per-entity tables have one row per entity. *)
Definition aligned (this : t W) : Prop :=
  length (mStateResidencyDataProviders this) = length (mPowerEntityInfos this).

End Registry.

(** ** Query operations *)

Section Queries.
Context {W : Type}.

Definition getEnergyData (this : t W) (w : W) (in_railIndices : list Z)
    (_aidl_return : list EnergyData.t)
  : W * (list EnergyData.t * ScopedAStatus) :=
  match mRailEnergyDataProvider this with
  | None => (w, (_aidl_return, ok))
  | Some p => IRailEnergyDataProvider.getEnergyData p w in_railIndices _aidl_return
  end.

Definition getRailInfo (this : t W) (w : W) (_aidl_return : list RailInfo.t)
  : W * (list RailInfo.t * ScopedAStatus) :=
  match mRailEnergyDataProvider this with
  | None => (w, (_aidl_return, ok))
  | Some p => IRailEnergyDataProvider.getRailInfo p w _aidl_return
  end.

(** The assignment [*_aidl_return = mPowerEntityInfos] discards what the
    vector held. *)
Definition getPowerEntityInfo (this : t W)
    (_aidl_return : list PowerEntityInfo.t)
  : list PowerEntityInfo.t * ScopedAStatus :=
  (mPowerEntityInfos this, ok).

(** [std::iota] over a [std::vector<int32_t>] of [n] elements, starting from
    [v]: each element is the previous one incremented in 32 bits. *)
Fixpoint iota (n : nat) (v : Z) : list Z :=
  match n with
  | O => []
  | S n' => v :: iota n' (int32_wrap (v + 1))
  end.

(** What one run of [getPowerEntityStateResidencyData] has in hand while its
    loop runs: the world the providers act on, the locals [stateResidencies]
    and [err], and the out-vector. [fetches] is not in the source: it records
    every [getResults] call the loop makes, as the requested id and the
    entity name the call was made for, and nothing reads it. *)
Record Frame : Type := mkFrame {
  world : W;
  stateResidencies : StateResidencies;
  aidl_return : list PowerEntityStateResidencyResult.t;
  err : binder_status_t;
  fetches : list (Z * string);
}.

(** [id < 0 || id >= mPowerEntityInfos.size()]. The second comparison is
    unsigned in the source and is only reached with [id] non-negative, where
    the conversion keeps the value. *)
Definition invalidId (this : t W) (id : Z) : bool :=
  bool_decide (id < 0)
  || bool_decide (Z.of_nat (length (mPowerEntityInfos this)) <= id).

(** Lines 92-94: fetch unless the scratch map already has the name. *)
Definition fetch (this : t W) (id : Z) (powerEntityName : string) (f : Frame)
  : option Frame :=
  match stateResidencies f !! powerEntityName with
  | Some _ => Some f
  | None =>
      p ← mStateResidencyDataProviders this !! Z.to_nat id;
      let r := IStateResidencyDataProvider.getResults p (world f)
                 (stateResidencies f) in
      Some (mkFrame r.1 r.2 (aidl_return f) (err f)
              (fetches f ++ [(id, powerEntityName)]))
  end.

(** Lines 97-110: append the entity's data, or record the failure. *)
Definition collect (id : Z) (powerEntityName : string) (f : Frame) : Frame :=
  match stateResidencies f !! powerEntityName with
  | Some stateResidency =>
      let res := PowerEntityStateResidencyResult.mk id stateResidency in
      mkFrame (world f) (stateResidencies f) (aidl_return f ++ [res]) (err f)
        (fetches f)
  | None =>
      mkFrame (world f) (stateResidencies f) (aidl_return f)
        (if decide (err f = STATUS_OK) then STATUS_FAILED_TRANSACTION
         else err f)
        (fetches f)
  end.

(** One iteration of the loop over [in_powerEntityIds]. *)
Definition visit (this : t W) (f : Frame) (id : Z) : option Frame :=
  if invalidId this id then
    Some (mkFrame (world f) (stateResidencies f) (aidl_return f)
            STATUS_BAD_VALUE (fetches f))
  else
    info ← mPowerEntityInfos this !! Z.to_nat id;
    let powerEntityName := PowerEntityInfo.powerEntityName info in
    f' ← fetch this id powerEntityName f;
    Some (collect id powerEntityName f').

Fixpoint visitAll (this : t W) (ids : list Z) (f : Frame) : option Frame :=
  match ids with
  | [] => Some f
  | id :: rest => f' ← visit this f id; visitAll this rest f'
  end.

(** True exactly when the call takes the expansion branch of line 73. *)
Definition expands (this : t W) (in_powerEntityIds : list Z) : bool :=
  match in_powerEntityIds, mPowerEntityInfos this with
  | [], _ :: _ => true
  | _, _ => false
  end.

Definition expansionsLeft (this : t W) (in_powerEntityIds : list Z) : nat :=
  if expands this in_powerEntityIds then 1%nat else 0%nat.

Lemma expands_iota (this : t W) (in_powerEntityIds : list Z) :
  expands this in_powerEntityIds = true ->
  expands this (iota (length (mPowerEntityInfos this)) 0) = false.
Proof.
  unfold expands. destruct in_powerEntityIds; [|discriminate].
  destruct (mPowerEntityInfos this); [discriminate|reflexivity].
Qed.

(** The operation itself. It calls itself on the expanded list, which is not
    empty, so the nested call runs the loop. The result is the frame at the
    end of the loop: the out-vector, the status [fromStatus err], the world
    and the record of fetches. *)
Equations? getPowerEntityStateResidencyData (this : t W) (w : W)
    (in_powerEntityIds : list Z)
    (_aidl_return : list PowerEntityStateResidencyResult.t)
  : option Frame by wf (expansionsLeft this in_powerEntityIds) lt :=
getPowerEntityStateResidencyData this w in_powerEntityIds _aidl_return
  with inspect (expands this in_powerEntityIds) := {
  | exist _ true e =>
      let v := iota (length (mPowerEntityInfos this)) 0 in
      getPowerEntityStateResidencyData this w v _aidl_return
  | exist _ false e =>
      visitAll this in_powerEntityIds
        (mkFrame w ∅ _aidl_return STATUS_OK []) }.
Proof.
  unfold expansionsLeft. subst v.
  rewrite (expands_iota _ _ e), e. lia.
Qed.

Definition status (f : Frame) : ScopedAStatus := fromStatus (err f).

(** The ids the loop of a call runs over: the caller's list, or the
    expanded one. *)
Definition requested (this : t W) (in_powerEntityIds : list Z) : list Z :=
  if expands this in_powerEntityIds
  then iota (length (mPowerEntityInfos this)) 0
  else in_powerEntityIds.

(** The frame a call starts its loop with. *)
Definition entry (w : W)
    (_aidl_return : list PowerEntityStateResidencyResult.t) : Frame :=
  mkFrame w ∅ _aidl_return STATUS_OK [].

(** How often the run asked a provider on behalf of one entity name. *)
Definition fetchCount (powerEntityName : string) (f : Frame) : nat :=
  length (filter (fun e => e.2 = powerEntityName) (fetches f)).

(** The loop invariant behind the count: at most one call for [name] has
    been made, and once it has been made the map holds an entry for
    [name]. *)
Definition fetchedOnce (name : string) (f : Frame) : Prop :=
  fetchCount name f = 0%nat
  \/ (fetchCount name f = 1%nat /\ is_Some (stateResidencies f !! name)).

(** The provider that owns [id] supplies data: whenever its [getResults] is
    called, the map holds an entry for the entity's name afterwards. *)
Definition supplies (this : t W) (id : Z) : Prop :=
  forall info p,
    mPowerEntityInfos this !! Z.to_nat id = Some info ->
    mStateResidencyDataProviders this !! Z.to_nat id = Some p ->
    forall w m,
      is_Some ((IStateResidencyDataProvider.getResults p w m).2
                 !! PowerEntityInfo.powerEntityName info).

(** Every provider that owns an entity called [name] supplies data for it. *)
Definition suppliesName (this : t W) (name : string) : Prop :=
  forall i info p,
    mPowerEntityInfos this !! i = Some info ->
    PowerEntityInfo.powerEntityName info = name ->
    mStateResidencyDataProviders this !! i = Some p ->
    forall w m,
      is_Some ((IStateResidencyDataProvider.getResults p w m).2 !! name).

(** No registered provider takes the entry for [name] out of the map. *)
Definition keeps (this : t W) (name : string) : Prop :=
  forall p, p ∈ mStateResidencyDataProviders this ->
    forall w m,
      is_Some (m !! name) ->
      is_Some ((IStateResidencyDataProvider.getResults p w m).2 !! name).

(** The iteration on [id] from frame [f] ends in the else branch of line
    104: [id] is in range and, after the fetch, the map has no entry for its
    name. *)
Definition failsAt (this : t W) (f : Frame) (id : Z) : Prop :=
  invalidId this id = false
  /\ exists info f',
       mPowerEntityInfos this !! Z.to_nat id = Some info
       /\ fetch this id (PowerEntityInfo.powerEntityName info) f = Some f'
       /\ stateResidencies f' !! PowerEntityInfo.powerEntityName info = None.

(** A provider fills in, on every call, each entity it announces in
    [getInfo]; a provider leaves in the map every entry it finds there. *)
Definition fillsAll (p : IStateResidencyDataProvider.t W) : Prop :=
  forall w m name,
    name ∈ (IStateResidencyDataProvider.getInfo p).*1 ->
    is_Some ((IStateResidencyDataProvider.getResults p w m).2 !! name).

Definition neverRemoves (p : IStateResidencyDataProvider.t W) : Prop :=
  forall w m name,
    is_Some (m !! name) ->
    is_Some ((IStateResidencyDataProvider.getResults p w m).2 !! name).

(** Every provider called so far has all its announced entities in the
    map. *)
Definition calledAreFilled (this : t W) (f : Frame) : Prop :=
  forall id n p name,
    (id, n) ∈ fetches f ->
    mStateResidencyDataProviders this !! Z.to_nat id = Some p ->
    name ∈ (IStateResidencyDataProvider.getInfo p).*1 ->
    is_Some (stateResidencies f !! name).

(** No two calls recorded so far went to the same provider. *)
Definition callsDistinct (this : t W) (f : Frame) : Prop :=
  forall i j id1 n1 id2 n2 p1 p2,
    (i < j)%nat ->
    fetches f !! i = Some (id1, n1) -> fetches f !! j = Some (id2, n2) ->
    mStateResidencyDataProviders this !! Z.to_nat id1 = Some p1 ->
    mStateResidencyDataProviders this !! Z.to_nat id2 = Some p2 ->
    p1 <> p2.

(** Some iteration of the loop over [ids], started from [f0], fails so. *)
Definition failureOccurs (this : t W) (ids : list Z) (f0 : Frame) : Prop :=
  exists pre id post f,
    ids = pre ++ id :: post
    /\ visitAll this pre f0 = Some f
    /\ failsAt this f id.

End Queries.

(** ** The dump *)

(** What the dump sends to its [std::ostringstream], one constructor per
    [<<] or [StringPrintf] call with the arguments that call receives.
    Laying the arguments out as text (column widths, the two decimals of
    [%14.2f]) is left to the reader of the stream. *)
Inductive Chunk : Set :=
| Banner (text : string)
| ElapsedTime (ms : Z)
| RailHeader
| RailHeaderDelta
| RailRow (subsysName railName : string) (energy : Double)
| RailRowDelta (subsysName railName : string) (energy deltaEnergy : Double)
| ResidencyHeader
| ResidencyHeaderDelta
| ResidencyRow (entityName stateName : string)
    (totalTimeInStateMs totalStateEntryCount lastEntryTimestampMs : Z)
| ResidencyRowDelta (entityName stateName : string)
    (totalTimeInStateMs deltaTotalTime : Z)
    (totalStateEntryCount deltaTotalCount : Z)
    (lastEntryTimestampMs deltaTimestamp : Z).

(** The function-local statics of the two report generators. The vectors
    start empty. A [prevTime] is [None] until control first passes its
    declaration, which initialises it with that call's [curTime]. *)
Record Statics : Set := mkStatics {
  prevEnergyData : list EnergyData.t;
  railPrevTime : option Z;
  prevResults : list PowerEntityStateResidencyResult.t;
  residencyPrevTime : option Z;
}.

Definition freshStatics : Statics := mkStatics [] None [] None.

(** [std::unordered_map::emplace]: no effect when the key is bound. *)
Definition emplace {K : Type} `{Countable K} {V : Type} (k : K) (v : V)
    (m : gmap K V) : gmap K V :=
  match m !! k with
  | Some _ => m
  | None => <[k := v]> m
  end.

(** [duration_cast<milliseconds>(curTime - prevTime).count ()] on the
    nanosecond ticks of [boot_clock]. *)
Definition elapsedMs (curTime prevTime : Z) : Z :=
  Z.quot (int64_wrap (curTime - prevTime)) 1000000.

(** The banners that open and close the two reports, without their line
    breaks. *)
Definition railBanner : Chunk :=
  Banner "============= PowerStats HAL 2.0 rail energy ==============".

Definition railEndBanner : Chunk :=
  Banner "========== End of PowerStats HAL 2.0 rail energy ==========".

Definition residencyBanner : Chunk :=
  Banner "============= PowerStats HAL 2.0 state residencies ==============".

Definition residencyEndBanner : Chunk :=
  Banner "========== End of PowerStats HAL 2.0 state residencies ==========".

(** Line 317: delta mode is asked for by the single argument "delta". *)
Definition deltaRequested (args : list string) : bool :=
  match args with
  | [arg] => bool_decide (arg = "delta"%string)
  | _ => false
  end.

Section Dump.
Context {W : Type}.
(** [boot_clock::now ()], in nanosecond ticks. *)
Variable boot_clock_now : W -> W * Z.

Definition getEntityStateMaps (this : t W)
  : gmap Z string * gmap Z (gmap Z string) :=
  let infos := (getPowerEntityInfo this []).1 in
  foldl (fun '(entityNames, stateNames) info =>
           let id := PowerEntityInfo.powerEntityId info in
           let fill (entityStateNames : gmap Z string) :=
             foldl (fun names state =>
                      emplace (PowerEntityStateInfo.powerEntityStateId state)
                        (PowerEntityStateInfo.powerEntityStateName state) names)
                   entityStateNames (PowerEntityInfo.states info) in
           (emplace id (PowerEntityInfo.powerEntityName info) entityNames,
            alter fill id (emplace id ∅ stateNames)))
        (∅, ∅) infos.

Definition getRailEnergyMaps (this : t W) (w : W)
  : W * gmap Z (string * string) :=
  let r := getRailInfo this w [] in
  (r.1,
   foldl (fun railNames info =>
            emplace (RailInfo.railIndex info)
              (RailInfo.subsysName info, RailInfo.railName info) railNames)
         ∅ r.2.1).

(** Lines 175-178. *)
Definition prevEnergyDataMapOf (prev : list EnergyData.t) : gmap Z Z :=
  foldl (fun m data =>
           emplace (EnergyData.railIndex data) (EnergyData.energyUWs data) m)
        ∅ prev.

(** The body of the loop of lines 180-193. *)
Definition railRowDelta (railNames : gmap Z (string * string))
    (prevEnergyDataMap : gmap Z Z) (data : EnergyData.t) : option Chunk :=
  names ← railNames !! EnergyData.railIndex data;
  let deltaEnergy :=
    match prevEnergyDataMap !! EnergyData.railIndex data with
    | Some prevEnergy => int64_wrap (EnergyData.energyUWs data - prevEnergy)
    | None => 0
    end in
  Some (RailRowDelta names.1 names.2
          (toMilliwattSeconds (EnergyData.energyUWs data))
          (toMilliwattSeconds deltaEnergy)).

(** The body of the loop of lines 200-205. *)
Definition railRow (railNames : gmap Z (string * string))
    (data : EnergyData.t) : option Chunk :=
  names ← railNames !! EnergyData.railIndex data;
  Some (RailRow names.1 names.2
          (toMilliwattSeconds (EnergyData.energyUWs data))).

Definition dumpRailEnergy (this : t W) (w : W) (s : Statics)
    (oss : list Chunk) (delta : bool) : option (W * Statics * list Chunk) :=
  let '(w1, railNames) := getRailEnergyMaps this w in
  let oss1 :=
    oss ++ [railBanner] in
  let '(w2, (energyData, _)) := getEnergyData this w1 [] [] in
  if delta then
    let '(w3, curTime) := boot_clock_now w2 in
    let prevTime := default curTime (railPrevTime s) in
    let oss2 := oss1 ++ [ElapsedTime (elapsedMs curTime prevTime); RailHeaderDelta] in
    let prevEnergyDataMap := prevEnergyDataMapOf (prevEnergyData s) in
    rows ← mapM (railRowDelta railNames prevEnergyDataMap) energyData;
    Some (w3,
          mkStatics energyData (Some curTime) (prevResults s) (residencyPrevTime s),
          oss2 ++ rows
            ++ [railEndBanner])
  else
    let oss2 := oss1 ++ [RailHeader] in
    rows ← mapM (railRow railNames) energyData;
    Some (w2, s,
          oss2 ++ rows
            ++ [railEndBanner]).

(** Lines 243-252: the two-tier table of the previous results. *)
Definition prevResultsMapOf (prev : list PowerEntityStateResidencyResult.t)
  : gmap Z (gmap Z PowerEntityStateResidencyData.t) :=
  foldl (fun m prevResult =>
           let id := PowerEntityStateResidencyResult.powerEntityId prevResult in
           foldl (fun m' stateResidency =>
                    alter (emplace
                             (PowerEntityStateResidencyData.powerEntityStateId
                                stateResidency)
                             stateResidency) id m')
                 (emplace id ∅ m)
                 (PowerEntityStateResidencyResult.stateResidencyData prevResult))
        ∅ prev.

(** The three deltas of lines 269-285, in the order time, count, timestamp. *)
Definition residencyDeltas
    (prevEntityResult : option (gmap Z PowerEntityStateResidencyData.t))
    (stateResidency : PowerEntityStateResidencyData.t) : Z * Z * Z :=
  match prevEntityResult with
  | Some prevStates =>
      match prevStates !! PowerEntityStateResidencyData.powerEntityStateId
                            stateResidency with
      | Some prevStateResidency =>
          (int64_wrap
             (PowerEntityStateResidencyData.totalTimeInStateMs stateResidency
              - PowerEntityStateResidencyData.totalTimeInStateMs
                  prevStateResidency),
           int64_wrap
             (PowerEntityStateResidencyData.totalStateEntryCount stateResidency
              - PowerEntityStateResidencyData.totalStateEntryCount
                  prevStateResidency),
           int64_wrap
             (PowerEntityStateResidencyData.lastEntryTimestampMs stateResidency
              - PowerEntityStateResidencyData.lastEntryTimestampMs
                  prevStateResidency))
      | None => (0, 0, 0)
      end
  | None => (0, 0, 0)
  end.

(** [stateNames.at (id).at (stateId)]. *)
Definition stateNameAt (stateNames : gmap Z (gmap Z string)) (id stateId : Z)
  : option string :=
  entityStateNames ← stateNames !! id; entityStateNames !! stateId.

(** The body of the inner loop of lines 262-291. *)
Definition residencyRowDelta (stateNames : gmap Z (gmap Z string))
    (id : Z) (entityName : string)
    (prevEntityResult : option (gmap Z PowerEntityStateResidencyData.t))
    (stateResidency : PowerEntityStateResidencyData.t) : option Chunk :=
  stateName ← stateNameAt stateNames id
                (PowerEntityStateResidencyData.powerEntityStateId stateResidency);
  let '(deltaTotalTime, deltaTotalCount, deltaTimestamp) :=
    residencyDeltas prevEntityResult stateResidency in
  Some (ResidencyRowDelta entityName stateName
          (PowerEntityStateResidencyData.totalTimeInStateMs stateResidency)
          deltaTotalTime
          (PowerEntityStateResidencyData.totalStateEntryCount stateResidency)
          deltaTotalCount
          (PowerEntityStateResidencyData.lastEntryTimestampMs stateResidency)
          deltaTimestamp).

(** The body of the outer loop of lines 255-292: the rows of one result. *)
Definition residencyRowsDelta (entityNames : gmap Z string)
    (stateNames : gmap Z (gmap Z string))
    (prevResultsMap : gmap Z (gmap Z PowerEntityStateResidencyData.t))
    (result : PowerEntityStateResidencyResult.t) : option (list Chunk) :=
  let id := PowerEntityStateResidencyResult.powerEntityId result in
  entityName ← entityNames !! id;
  mapM (residencyRowDelta stateNames id entityName (prevResultsMap !! id))
       (PowerEntityStateResidencyResult.stateResidencyData result).

(** The body of the inner loop of lines 300-308. *)
Definition residencyRow (entityNames : gmap Z string)
    (stateNames : gmap Z (gmap Z string)) (id : Z)
    (stateResidency : PowerEntityStateResidencyData.t) : option Chunk :=
  entityName ← entityNames !! id;
  stateName ← stateNameAt stateNames id
                (PowerEntityStateResidencyData.powerEntityStateId stateResidency);
  Some (ResidencyRow entityName stateName
          (PowerEntityStateResidencyData.totalTimeInStateMs stateResidency)
          (PowerEntityStateResidencyData.totalStateEntryCount stateResidency)
          (PowerEntityStateResidencyData.lastEntryTimestampMs stateResidency)).

Definition residencyRows (entityNames : gmap Z string)
    (stateNames : gmap Z (gmap Z string))
    (result : PowerEntityStateResidencyResult.t) : option (list Chunk) :=
  mapM (residencyRow entityNames stateNames
          (PowerEntityStateResidencyResult.powerEntityId result))
       (PowerEntityStateResidencyResult.stateResidencyData result).

Definition dumpStateResidency (this : t W) (w : W) (s : Statics)
    (oss : list Chunk) (delta : bool) : option (W * Statics * list Chunk) :=
  let '(entityNames, stateNames) := getEntityStateMaps this in
  let oss1 :=
    oss ++ [residencyBanner] in
  f ← getPowerEntityStateResidencyData this w [] [];
  let results := aidl_return f in
  let w1 := world f in
  if delta then
    let '(w2, curTime) := boot_clock_now w1 in
    let prevTime := default curTime (residencyPrevTime s) in
    let oss2 :=
      oss1 ++ [ElapsedTime (elapsedMs curTime prevTime); ResidencyHeaderDelta] in
    let prevResultsMap := prevResultsMapOf (prevResults s) in
    rows ← mapM (residencyRowsDelta entityNames stateNames prevResultsMap) results;
    Some (w2,
          mkStatics (prevEnergyData s) (railPrevTime s) results (Some curTime),
          oss2 ++ concat rows
            ++ [residencyEndBanner])
  else
    let oss2 := oss1 ++ [ResidencyHeader] in
    rows ← mapM (residencyRows entityNames stateNames) results;
    Some (w1, s,
          oss2 ++ concat rows
            ++ [residencyEndBanner]).

(** [dump]: the chunks it returns are what [WriteStringToFd] receives. *)
Definition dump (this : t W) (w : W) (s : Statics) (args : list string)
  : option (W * Statics * list Chunk * binder_status_t) :=
  let delta := deltaRequested args in
  '(w1, s1, oss1) ← dumpStateResidency this w s [] delta;
  '(w2, s2, oss2) ← dumpRailEnergy this w1 s1 oss1 delta;
  Some (w2, s2, oss2, STATUS_OK).

(** The snapshot a rail-energy dump started in world [w] works on: the
    name table and the world after [getRailEnergyMaps], then the readings and
    the world after [getEnergyData]. *)
Definition railNamesNow (this : t W) (w : W) : gmap Z (string * string) :=
  (getRailEnergyMaps this w).2.

Definition railEnergyNow (this : t W) (w : W) : W * list EnergyData.t :=
  let r := getEnergyData this (getRailEnergyMaps this w).1 [] [] in
  (r.1, r.2.1).

End Dump.

(** A rail index, or an entity id with a state id, has a record in a stored
    snapshot. *)
Definition railInSnapshot (prev : list EnergyData.t) (railIndex : Z) : Prop :=
  exists data, data ∈ prev /\ EnergyData.railIndex data = railIndex.

Definition stateInSnapshot (prev : list PowerEntityStateResidencyResult.t)
    (id stateId : Z) : Prop :=
  exists result stateResidency,
    result ∈ prev
    /\ PowerEntityStateResidencyResult.powerEntityId result = id
    /\ stateResidency
         ∈ PowerEntityStateResidencyResult.stateResidencyData result
    /\ PowerEntityStateResidencyData.powerEntityStateId stateResidency
       = stateId.

(** A two-tier table of previous results has an entity id with a state
    id. *)
Definition tableHas (M : gmap Z (gmap Z PowerEntityStateResidencyData.t))
    (id stateId : Z) : Prop :=
  exists m, M !! id = Some m /\ is_Some (m !! stateId).

(** Every delta and every elapsed time a chunk shows is zero. *)
Definition deltasZero (c : Chunk) : Prop :=
  match c with
  | ElapsedTime ms => ms = 0
  | RailRowDelta _ _ _ deltaEnergy => deltaEnergy = double_zero
  | ResidencyRowDelta _ _ _ deltaTotalTime _ deltaTotalCount _ deltaTimestamp =>
      deltaTotalTime = 0 /\ deltaTotalCount = 0 /\ deltaTimestamp = 0
  | _ => True
  end.

(** ** A sample configuration

    The world is a counter of provider calls, so a run shows how often the
    providers were asked. [cpuProvider] supplies data for its two entities on
    every call; [idleProvider] owns one entity and never supplies anything. *)

Definition cpuStates : list PowerEntityStateInfo.t :=
  [PowerEntityStateInfo.mk 0 "RUN"; PowerEntityStateInfo.mk 1 "SLEEP"].

Definition cpuResidency (w : nat) : list PowerEntityStateResidencyData.t :=
  [PowerEntityStateResidencyData.mk 0 (700 + Z.of_nat w) 12 650;
   PowerEntityStateResidencyData.mk 1 300 11 690].

Definition cpuProvider : IStateResidencyDataProvider.t nat :=
  IStateResidencyDataProvider.mk
    [("CPU-big"%string, cpuStates); ("CPU-little"%string, cpuStates)]
    (fun w m =>
       (S w, <["CPU-big"%string := cpuResidency w]>
               (<["CPU-little"%string := cpuResidency 0]> m))).

Definition idleProvider : IStateResidencyDataProvider.t nat :=
  IStateResidencyDataProvider.mk
    [("Modem"%string, [PowerEntityStateInfo.mk 0 "IDLE"])]
    (fun w m => (S w, m)).

Definition sampleRails : IRailEnergyDataProvider.t nat :=
  IRailEnergyDataProvider.mk
    (fun w _ out =>
       (w, (out ++ [EnergyData.mk 0 (1500 + Z.of_nat w); EnergyData.mk 1 40],
            STATUS_OK)))
    (fun w out =>
       (w, (out ++ [RailInfo.mk 0 "CPU" "VDD_CPU"; RailInfo.mk 1 "MEM" "VDD_MEM"],
            STATUS_OK))).

(** Ids 0 and 1 belong to [cpuProvider], id 2 to [idleProvider]. *)
Definition sample : t nat :=
  addStateResidencyDataProvider
    (addStateResidencyDataProvider
       (setRailDataProvider (init nat) sampleRails) cpuProvider)
    idleProvider.

(** A registry whose only entity never gets data. *)
Definition idleOnly : t nat :=
  addStateResidencyDataProvider (init nat) idleProvider.

(** A provider that fills in its one entity, and a registry all of whose
    providers fill in what they announce: ids 0 and 1 belong to
    [cpuProvider], id 2 to [gpuProvider]. *)
Definition gpuProvider : IStateResidencyDataProvider.t nat :=
  IStateResidencyDataProvider.mk
    [("GPU"%string, [PowerEntityStateInfo.mk 0 "ON"])]
    (fun w m =>
       (S w, <["GPU"%string :=
                 [PowerEntityStateResidencyData.mk 0 50 2 40]]> m)).

Definition filling : t nat :=
  addStateResidencyDataProvider
    (addStateResidencyDataProvider (init nat) cpuProvider) gpuProvider.

(** A clock that advances one second per provider call. *)
Definition sampleClock (w : nat) : nat * Z := (w, Z.of_nat w * 1000000000).

(** ** Properties of the registry *)

Section RegistryFacts.
Context {W : Type}.
Implicit Types (this : t W) (p : IStateResidencyDataProvider.t W).

Lemma int32_wrap_id (z : Z) : is_int32 z -> int32_wrap z = z.
Proof.
  unfold is_int32, int32_wrap. intros Hz.
  rewrite Z.mod_small; lia.
Qed.

Lemma iota_seqZ (n : nat) : forall v : Z,
  - 2 ^ 31 <= v -> v + Z.of_nat n <= 2 ^ 31 -> iota n v = seqZ v (Z.of_nat n).
Proof.
  induction n as [|n IH]; intros v Hlo Hhi; [reflexivity|].
  cbn [iota]. rewrite seqZ_cons by lia. f_equal.
  replace (Z.pred (Z.of_nat (S n))) with (Z.of_nat n) by lia.
  destruct n as [|n]; [reflexivity|].
  rewrite int32_wrap_id by (unfold is_int32; lia).
  apply IH; lia.
Qed.

(** What the registration loop leaves behind: both tables grow at the end,
    by one row per entity of the provider, and the new ids count up from the
    starting value while they fit in 32 bits. *)
Lemma addEntities_spec p info : forall id this,
  exists new,
    mPowerEntityInfos (addEntities p info id this)
      = mPowerEntityInfos this ++ new
    /\ mStateResidencyDataProviders (addEntities p info id this)
      = mStateResidencyDataProviders this ++ replicate (length info) p
    /\ mRailEnergyDataProvider (addEntities p info id this)
      = mRailEnergyDataProvider this
    /\ length new = length info
    /\ (- 2 ^ 31 <= id -> id + Z.of_nat (length info) <= 2 ^ 31 ->
        PowerEntityInfo.powerEntityId <$> new = seqZ id (Z.of_nat (length info))).
Proof.
  induction info as [|[entityName states] rest IH]; intros id this.
  - exists []. cbn. rewrite !app_nil_r. auto.
  - cbn [addEntities].
    destruct (IH (int32_wrap (id + 1))
                (mk (mRailEnergyDataProvider this)
                    (mPowerEntityInfos this
                       ++ [PowerEntityInfo.mk id entityName states])
                    (mStateResidencyDataProviders this ++ [p])))
      as (new & Hi & Hp & Hr & Hlen & Hids).
    exists (PowerEntityInfo.mk id entityName states :: new).
    cbn [mPowerEntityInfos mStateResidencyDataProviders
         mRailEnergyDataProvider] in Hi, Hp, Hr.
    rewrite Hi, Hp, Hr, <- !app_assoc. cbn [app replicate length].
    repeat split; [congruence|].
    intros Hlo Hhi. rewrite seqZ_cons by lia. cbn. f_equal.
    replace (Z.pred (Z.of_nat (S (length rest))))
      with (Z.of_nat (length rest)) by lia.
    destruct rest as [|e rest'].
    + destruct new; [reflexivity|discriminate].
    + rewrite int32_wrap_id in Hids by (unfold is_int32; cbn [length] in *; lia).
      apply Hids; cbn [length] in *; lia.
Qed.

Lemma aligned_init : aligned (init W).
Proof. reflexivity. Qed.

Lemma aligned_setRailDataProvider this q :
  aligned this -> aligned (setRailDataProvider this q).
Proof. exact id. Qed.

Lemma aligned_addStateResidencyDataProvider this p :
  aligned this -> aligned (addStateResidencyDataProvider this p).
Proof.
  unfold aligned, addStateResidencyDataProvider. intros H.
  destruct (addEntities_spec p (IStateResidencyDataProvider.getInfo p)
              (int32_wrap (Z.of_nat (length (mPowerEntityInfos this)))) this)
    as (new & -> & -> & _ & Hlen & _).
  rewrite !length_app, length_replicate. lia.
Qed.

Lemma registered_aligned this : registered this -> aligned this.
Proof.
  induction 1;
    auto using aligned_init, aligned_setRailDataProvider,
               aligned_addStateResidencyDataProvider.
Qed.

End RegistryFacts.

(** ** Properties of the state-residency query *)

Section QueryFacts.
Context {W : Type}.
Implicit Types (this : t W) (f : Frame (W := W)) (id : Z) (ids : list Z).

(** The recursion unfolds to a single run of the loop. *)
Lemma getPowerEntityStateResidencyData_loop this (w : W) ids ret :
  getPowerEntityStateResidencyData this w ids ret
  = visitAll this (requested this ids) (entry w ret).
Proof.
  unfold requested.
  rewrite getPowerEntityStateResidencyData_equation_1.
  destruct (Logic.inspect (expands this ids)) as [[] e].
  - rewrite getPowerEntityStateResidencyData_clause_1_equation_1. cbv zeta.
    rewrite getPowerEntityStateResidencyData_equation_1.
    destruct (Logic.inspect
                (expands this (iota (length (mPowerEntityInfos this)) 0)))
      as [[] e'].
    + exfalso. pose proof (expands_iota _ _ e). congruence.
    + rewrite getPowerEntityStateResidencyData_clause_1_equation_2.
      rewrite e. reflexivity.
  - rewrite getPowerEntityStateResidencyData_clause_1_equation_2.
    rewrite e. reflexivity.
Qed.

Lemma invalidId_false this id :
  invalidId this id = false
  <-> 0 <= id < Z.of_nat (length (mPowerEntityInfos this)).
Proof.
  unfold invalidId. rewrite orb_false_iff, !bool_decide_eq_false. lia.
Qed.

Lemma invalidId_true this id :
  invalidId this id = true
  <-> id < 0 \/ Z.of_nat (length (mPowerEntityInfos this)) <= id.
Proof.
  unfold invalidId. rewrite orb_true_iff, !bool_decide_eq_true. tauto.
Qed.

Lemma valid_info this id :
  invalidId this id = false -> is_Some (mPowerEntityInfos this !! Z.to_nat id).
Proof.
  rewrite invalidId_false. intros H. apply lookup_lt_is_Some. lia.
Qed.

Lemma valid_provider this id :
  aligned this -> invalidId this id = false ->
  is_Some (mStateResidencyDataProviders this !! Z.to_nat id).
Proof.
  unfold aligned. rewrite invalidId_false. intros Hal H.
  apply lookup_lt_is_Some. lia.
Qed.

Lemma fetch_total this id name f :
  aligned this -> invalidId this id = false ->
  is_Some (fetch this id name f).
Proof.
  intros Hal Hv. unfold fetch.
  destruct (stateResidencies f !! name); [eauto|].
  destruct (valid_provider this id Hal Hv) as [p ->]. cbn. eauto.
Qed.

Lemma visit_total this f id : aligned this -> is_Some (visit this f id).
Proof.
  intros Hal. unfold visit. destruct (invalidId this id) eqn:Hv; [eauto|].
  destruct (valid_info this id Hv) as [info ->]. cbn.
  destruct (fetch_total this id (PowerEntityInfo.powerEntityName info) f Hal Hv)
    as [f' ->].
  cbn. eauto.
Qed.

Lemma visitAll_total this ids : forall f,
  aligned this -> is_Some (visitAll this ids f).
Proof.
  induction ids as [|id ids IH]; intros f Hal; cbn; [eauto|].
  destruct (visit_total this f id Hal) as [f' ->]. cbn. auto.
Qed.

Lemma visitAll_app this ids1 ids2 f :
  visitAll this (ids1 ++ ids2) f
  = visitAll this ids1 f ≫= visitAll this ids2.
Proof.
  revert f. induction ids1 as [|id ids1 IH]; intros f; cbn; [reflexivity|].
  destruct (visit this f id); cbn; auto.
Qed.

(** *** The status accumulated by the loop *)

Lemma collect_err id name f :
  err (collect id name f) = err f
  \/ (err f = STATUS_OK /\ err (collect id name f) = STATUS_FAILED_TRANSACTION
      /\ stateResidencies f !! name = None).
Proof.
  unfold collect. destruct (stateResidencies f !! name); cbn; [auto|].
  destruct (decide (err f = STATUS_OK)); auto.
Qed.

Lemma fetch_err this id name f f' :
  fetch this id name f = Some f' -> err f' = err f.
Proof.
  unfold fetch. destruct (stateResidencies f !! name); [congruence|].
  destruct (mStateResidencyDataProviders this !! Z.to_nat id); cbn;
    [|discriminate].
  intros [= <-]. reflexivity.
Qed.

(** An id out of range sets BAD_VALUE whatever the status was. *)
Lemma visit_invalid_err this f id f' :
  visit this f id = Some f' -> invalidId this id = true ->
  err f' = STATUS_BAD_VALUE.
Proof.
  unfold visit. intros H Hv. rewrite Hv in H. injection H as <-. reflexivity.
Qed.

(** An id in range changes the status only from OK to FAILED_TRANSACTION. *)
Lemma visit_valid_err this f id f' :
  visit this f id = Some f' -> invalidId this id = false ->
  err f' = err f
  \/ (err f = STATUS_OK /\ err f' = STATUS_FAILED_TRANSACTION).
Proof.
  unfold visit. intros H Hv. rewrite Hv in H.
  destruct (mPowerEntityInfos this !! Z.to_nat id) as [info|]; [|discriminate].
  cbn in H.
  destruct (fetch this id (PowerEntityInfo.powerEntityName info) f)
    as [f1|] eqn:Hf; [|discriminate].
  cbn in H. injection H as <-. apply fetch_err in Hf. rewrite <- Hf.
  destruct (collect_err id (PowerEntityInfo.powerEntityName info) f1)
    as [->|(? & ? & _)]; auto.
Qed.

(** BAD_VALUE, once set, survives every iteration. *)
Lemma visit_keeps_bad_value this f id f' :
  visit this f id = Some f' -> err f = STATUS_BAD_VALUE ->
  err f' = STATUS_BAD_VALUE.
Proof.
  intros H Hbad. destruct (invalidId this id) eqn:Hv.
  - eapply visit_invalid_err; eauto.
  - destruct (visit_valid_err this f id f' H Hv) as [->|[? _]]; congruence.
Qed.

Lemma visit_fails_err this f id f' :
  visit this f id = Some f' -> failsAt this f id ->
  err f <> STATUS_BAD_VALUE -> err f' = STATUS_FAILED_TRANSACTION.
Proof.
  unfold visit. intros H (Hv & info & f1 & Hi & Hf & Hnone) Hnb.
  rewrite Hv, Hi in H. cbn in H. rewrite Hf in H. cbn in H.
  injection H as <-. apply fetch_err in Hf.
  unfold collect. rewrite Hnone. cbn. rewrite Hf.
  destruct (decide (err f = STATUS_OK)); [reflexivity|].
  destruct (err f); congruence.
Qed.

Lemma visitAll_keeps_bad_value this ids : forall f f',
  visitAll this ids f = Some f' -> err f = STATUS_BAD_VALUE ->
  err f' = STATUS_BAD_VALUE.
Proof.
  induction ids as [|id ids IH]; cbn; intros f f' H Hbad; [congruence|].
  destruct (visit this f id) as [f1|] eqn:Hv; [|discriminate]. cbn in H.
  eauto using visit_keeps_bad_value.
Qed.

Lemma visitAll_invalid_err this ids : forall f f' bad,
  visitAll this ids f = Some f' -> bad ∈ ids -> invalidId this bad = true ->
  err f' = STATUS_BAD_VALUE.
Proof.
  induction ids as [|id ids IH]; cbn; intros f f' bad H Hin Hbad.
  - inversion Hin.
  - destruct (visit this f id) as [f1|] eqn:Hv; [|discriminate]. cbn in H.
    apply elem_of_cons in Hin as [->|Hin]; [|eauto].
    eapply visitAll_keeps_bad_value; [exact H|].
    eapply visit_invalid_err; eauto.
Qed.

Lemma visitAll_valid_err this ids : forall f f',
  visitAll this ids f = Some f' ->
  (forall id, id ∈ ids -> invalidId this id = false) ->
  (err f <> STATUS_BAD_VALUE -> err f' <> STATUS_BAD_VALUE)
  /\ (err f = STATUS_FAILED_TRANSACTION ->
      err f' = STATUS_FAILED_TRANSACTION).
Proof.
  induction ids as [|id ids IH]; cbn; intros f f' H Hall.
  - injection H as <-. auto.
  - destruct (visit this f id) as [f1|] eqn:Hv; [|discriminate]. cbn in H.
    destruct (IH f1 f' H) as [IH1 IH2];
      [intros; apply Hall, list_elem_of_further; assumption|].
    destruct (visit_valid_err this f id f1 Hv) as [E|[E1 E2]];
      [apply Hall, list_elem_of_here| |].
    + rewrite E in *. auto.
    + split; intros; [apply IH1|]; congruence.
Qed.

(** *** The results gathered by the loop *)

Lemma fetch_aidl_return this id name f f' :
  fetch this id name f = Some f' -> aidl_return f' = aidl_return f.
Proof.
  unfold fetch. destruct (stateResidencies f !! name); [congruence|].
  destruct (mStateResidencyDataProviders this !! Z.to_nat id); cbn;
    [|discriminate].
  intros [= <-]. reflexivity.
Qed.

(** After the fetch for a supplied id the map has the entity's name. *)
Lemma fetch_supplied this id info f f' :
  mPowerEntityInfos this !! Z.to_nat id = Some info ->
  supplies this id ->
  fetch this id (PowerEntityInfo.powerEntityName info) f = Some f' ->
  is_Some (stateResidencies f' !! PowerEntityInfo.powerEntityName info).
Proof.
  intros Hi Hs. unfold fetch.
  destruct (stateResidencies f !! PowerEntityInfo.powerEntityName info)
    eqn:E; [intros [= <-]; rewrite E; eauto|].
  destruct (mStateResidencyDataProviders this !! Z.to_nat id) as [p|] eqn:Hp;
    cbn; [|discriminate].
  intros [= <-]. cbn. eapply Hs; eauto.
Qed.

(** One iteration only appends to the out-vector, and appends a result
    carrying [id] when [id] is in range and supplied. *)
Lemma visit_aidl_return this f id f' :
  visit this f id = Some f' ->
  exists new,
    aidl_return f' = aidl_return f ++ new
    /\ (invalidId this id = false -> supplies this id ->
        exists res,
          res ∈ new /\ PowerEntityStateResidencyResult.powerEntityId res = id).
Proof.
  unfold visit. destruct (invalidId this id) eqn:Hv.
  - intros [= <-]. exists []. cbn. rewrite app_nil_r. split; [reflexivity|].
    discriminate.
  - destruct (mPowerEntityInfos this !! Z.to_nat id) as [info|] eqn:Hi;
      [|discriminate].
    cbn.
    destruct (fetch this id (PowerEntityInfo.powerEntityName info) f)
      as [f1|] eqn:Hf; [|discriminate].
    cbn. intros [= <-].
    pose proof (fetch_aidl_return _ _ _ _ _ Hf) as Hret.
    unfold collect.
    destruct (stateResidencies f1 !! PowerEntityInfo.powerEntityName info)
      as [d|] eqn:Hd; cbn; rewrite Hret.
    + eexists. split; [reflexivity|]. intros _ _.
      eexists. split; [apply list_elem_of_here|reflexivity].
    + exists []. rewrite app_nil_r. split; [reflexivity|]. intros _ Hs.
      destruct (fetch_supplied this id info f f1 Hi Hs Hf) as [d Hd'].
      congruence.
Qed.

Lemma visitAll_aidl_return this ids : forall f f',
  visitAll this ids f = Some f' ->
  exists new,
    aidl_return f' = aidl_return f ++ new
    /\ forall id,
         id ∈ ids -> invalidId this id = false -> supplies this id ->
         exists res,
           res ∈ new /\ PowerEntityStateResidencyResult.powerEntityId res = id.
Proof.
  induction ids as [|id ids IH]; cbn; intros f f' H.
  - injection H as <-. exists []. rewrite app_nil_r. split; [reflexivity|].
    intros id Hin. inversion Hin.
  - destruct (visit this f id) as [f1|] eqn:Hv; [|discriminate]. cbn in H.
    destruct (visit_aidl_return this f id f1 Hv) as (new1 & E1 & Hnew1).
    destruct (IH f1 f' H) as (new2 & E2 & Hnew2).
    exists (new1 ++ new2). rewrite E2, E1, app_assoc. split; [reflexivity|].
    intros id' Hin Hvalid Hs. apply elem_of_cons in Hin as [->|Hin].
    + destruct (Hnew1 Hvalid Hs) as (res & Hres & Hid). exists res.
      split; [apply elem_of_app; auto|exact Hid].
    + destruct (Hnew2 id' Hin Hvalid Hs) as (res & Hres & Hid). exists res.
      split; [apply elem_of_app; auto|exact Hid].
Qed.

(** *** The provider calls made by the loop *)

(** The fetch consults the map first: with an entry for the name present,
    it calls nobody and changes nothing. *)
Lemma fetch_cached this id name f f' :
  fetch this id name f = Some f' -> is_Some (stateResidencies f !! name) ->
  f' = f.
Proof.
  unfold fetch. intros H [d Hd]. rewrite Hd in H. congruence.
Qed.

Lemma fetchCount_snoc name f (w : W) m ret e id' name' :
  fetchCount name (mkFrame w m ret e (fetches f ++ [(id', name')]))
  = (fetchCount name f + if decide (name' = name) then 1 else 0)%nat.
Proof.
  unfold fetchCount. cbn [fetches]. rewrite filter_app, length_app.
  f_equal. rewrite filter_cons, filter_nil. cbn.
  destruct (decide (name' = name)); reflexivity.
Qed.

Lemma fetch_fetchedOnce this id info f f' name :
  keeps this name -> suppliesName this name ->
  mPowerEntityInfos this !! Z.to_nat id = Some info ->
  fetch this id (PowerEntityInfo.powerEntityName info) f = Some f' ->
  fetchedOnce name f -> fetchedOnce name f'.
Proof.
  intros Hk Hs Hi. unfold fetch.
  destruct (stateResidencies f !! PowerEntityInfo.powerEntityName info)
    eqn:E; [congruence|].
  destruct (mStateResidencyDataProviders this !! Z.to_nat id) as [p|] eqn:Hp;
    cbn; [|discriminate].
  intros [= <-] Hinv. unfold fetchedOnce.
  rewrite fetchCount_snoc. cbn [stateResidencies].
  destruct (decide (PowerEntityInfo.powerEntityName info = name)) as [Hn|Hn].
  - right. split; [|eapply Hs; eauto].
    destruct Hinv as [->|[_ [d Hd]]]; [reflexivity|congruence].
  - rewrite Nat.add_0_r. destruct Hinv as [?|[? Hsome]]; [auto|].
    right. split; [assumption|].
    apply Hk; [|assumption]. eapply list_elem_of_lookup_2; eauto.
Qed.

Lemma visit_fetchedOnce this f id f' name :
  keeps this name -> suppliesName this name ->
  visit this f id = Some f' -> fetchedOnce name f -> fetchedOnce name f'.
Proof.
  intros Hk Hs. unfold visit. destruct (invalidId this id).
  - intros [= <-] Hinv. exact Hinv.
  - destruct (mPowerEntityInfos this !! Z.to_nat id) as [info|] eqn:Hi;
      [|discriminate].
    cbn.
    destruct (fetch this id (PowerEntityInfo.powerEntityName info) f)
      as [f1|] eqn:Hf; [|discriminate].
    cbn. intros [= <-] Hinv.
    pose proof (fetch_fetchedOnce this id info f f1 name Hk Hs Hi Hf Hinv)
      as Hinv1.
    unfold collect.
    destruct (stateResidencies f1 !! PowerEntityInfo.powerEntityName info);
      exact Hinv1.
Qed.

Lemma visitAll_fetchedOnce this name ids : forall f f',
  keeps this name -> suppliesName this name ->
  visitAll this ids f = Some f' -> fetchedOnce name f -> fetchedOnce name f'.
Proof.
  induction ids as [|id ids IH]; cbn; intros f f' Hk Hs H Hinv.
  - congruence.
  - destruct (visit this f id) as [f1|] eqn:Hv; [|discriminate]. cbn in H.
    eauto using visit_fetchedOnce.
Qed.

(** C2. With the tables aligned and an id out of range somewhere in the
    list, the call completes with BAD_VALUE, keeps what the out-vector held
    and appends, for every id of the list that is in range and whose
    provider supplies data, a result carrying that id. *)
Theorem invalid_id_is_skipped_not_fatal this (w : W) ids ret :
  aligned this ->
  (exists bad, bad ∈ ids /\ invalidId this bad = true) ->
  exists f new,
    getPowerEntityStateResidencyData this w ids ret = Some f
    /\ status f = STATUS_BAD_VALUE
    /\ aidl_return f = ret ++ new
    /\ forall id,
         id ∈ ids -> invalidId this id = false -> supplies this id ->
         exists res,
           res ∈ new /\ PowerEntityStateResidencyResult.powerEntityId res = id.
Proof.
  intros Hal (bad & Hin & Hbad).
  rewrite getPowerEntityStateResidencyData_loop.
  assert (requested this ids = ids) as ->.
  { unfold requested, expands. destruct ids; [inversion Hin|reflexivity]. }
  destruct (visitAll_total this ids (entry w ret) Hal) as [f Hf].
  destruct (visitAll_aidl_return this ids _ _ Hf) as (new & Hret & Hnew).
  exists f, new. repeat split; try assumption.
  unfold status, fromStatus. eapply visitAll_invalid_err; eauto.
Qed.

(** C3. With the tables aligned the call completes, and over the ids its
    loop runs on: an id out of range anywhere makes the status BAD_VALUE,
    whether or not a fetch failed before or after it; with every id in
    range, one failed fetch makes the status FAILED_TRANSACTION. Step by
    step: BAD_VALUE survives every iteration, and an iteration on an id out
    of range sets BAD_VALUE over any earlier status. *)
Theorem bad_value_outranks_failed_transaction this (w : W) ids ret :
  aligned this ->
  exists f,
    getPowerEntityStateResidencyData this w ids ret = Some f
    /\ ((exists bad, bad ∈ requested this ids /\ invalidId this bad = true) ->
        status f = STATUS_BAD_VALUE)
    /\ ((forall id, id ∈ requested this ids -> invalidId this id = false) ->
        failureOccurs this (requested this ids) (entry w ret) ->
        status f = STATUS_FAILED_TRANSACTION)
    /\ (forall g id g',
          visit this g id = Some g' -> err g = STATUS_BAD_VALUE ->
          err g' = STATUS_BAD_VALUE)
    /\ (forall g id g',
          visit this g id = Some g' -> invalidId this id = true ->
          err g' = STATUS_BAD_VALUE).
Proof.
  intros Hal. rewrite getPowerEntityStateResidencyData_loop.
  destruct (visitAll_total this (requested this ids) (entry w ret) Hal)
    as [f Hf].
  exists f. split; [assumption|]. unfold status, fromStatus.
  split; [|split; [|split]].
  - intros (bad & Hin & Hbad). eapply visitAll_invalid_err; eauto.
  - intros Hall (pre & id & post & g & Hids & Hpre & Hfail).
    rewrite Hids in Hf, Hall. rewrite visitAll_app, Hpre in Hf.
    cbn in Hf.
    destruct (visit this g id) as [g'|] eqn:Hv; [|discriminate]. cbn in Hf.
    destruct (visitAll_valid_err this pre _ _ Hpre) as [Hnb _];
      [intros; apply Hall; set_solver|].
    destruct (visitAll_valid_err this post _ _ Hf) as [_ Hkeep];
      [intros; apply Hall; set_solver|].
    apply Hkeep. eapply visit_fails_err; [exact Hv|exact Hfail|].
    apply Hnb. discriminate.
  - apply visit_keeps_bad_value.
  - apply visit_invalid_err.
Qed.

(** C4, amended. With the tables aligned, take an entity name whose owning
    providers supply data for it whenever asked and whose map entry no
    provider removes. Then the call asks a provider on behalf of that name
    at most once; and in general a fetch with the name already in the
    scratch map calls nobody. (Without the supply the bound can fail, as
    it does for an entity whose provider never fills it in.) *)
Theorem getResults_once_per_supplied_name this (w : W) ids ret name :
  aligned this -> keeps this name -> suppliesName this name ->
  exists f,
    getPowerEntityStateResidencyData this w ids ret = Some f
    /\ (fetchCount name f <= 1)%nat
    /\ (forall g id g',
          fetch this id name g = Some g' ->
          is_Some (stateResidencies g !! name) -> g' = g).
Proof.
  intros Hal Hk Hs. rewrite getPowerEntityStateResidencyData_loop.
  destruct (visitAll_total this (requested this ids) (entry w ret) Hal)
    as [f Hf].
  exists f. split; [assumption|].
  split; [|intros g id g'; apply fetch_cached].
  assert (fetchedOnce name f) as [->|[-> _]]; [|lia|lia].
  eapply visitAll_fetchedOnce; eauto. left. reflexivity.
Qed.

(** C1. On a registry of N > 0 entities (N within the range of the 32-bit
    ids), the call with the empty id list has the same outcome as the call
    with the ascending list 0, 1, ..., N-1: the same result list, status,
    provider calls and final world. *)
Theorem empty_ids_same_as_all_ids this (w : W) ret :
  (0 < length (mPowerEntityInfos this))%nat ->
  Z.of_nat (length (mPowerEntityInfos this)) <= 2 ^ 31 ->
  getPowerEntityStateResidencyData this w [] ret
  = getPowerEntityStateResidencyData this w
      (seqZ 0 (Z.of_nat (length (mPowerEntityInfos this)))) ret.
Proof.
  intros Hpos Hfit. rewrite !getPowerEntityStateResidencyData_loop.
  f_equal. unfold requested, expands.
  destruct (mPowerEntityInfos this) as [|i infos] eqn:E; [cbn in Hpos; lia|].
  rewrite iota_seqZ by lia.
  rewrite (seqZ_cons 0) by (cbn [length]; lia). reflexivity.
Qed.

(** C10. With no entity registered, the call with the empty id list runs the
    loop over nothing: status OK, the fresh result vector still empty, no
    provider asked and the world untouched. *)
Theorem empty_ids_on_empty_registry this (w : W) :
  mPowerEntityInfos this = [] ->
  exists f,
    getPowerEntityStateResidencyData this w [] [] = Some f
    /\ status f = STATUS_OK /\ aidl_return f = []
    /\ fetches f = [] /\ world f = w.
Proof.
  intros Hempty. rewrite getPowerEntityStateResidencyData_loop.
  unfold requested, expands. rewrite Hempty. cbn.
  eexists. split; [reflexivity|]. cbn. auto.
Qed.

(** C5. While no energy provider is registered, [getEnergyData] and
    [getRailInfo] return OK and leave the result vector as the caller
    passed it, hence empty for the fresh vector of a call; the world is not
    touched. *)
Theorem no_energy_provider_ok_and_empty this (w : W) (in_railIndices : list Z) :
  mRailEnergyDataProvider this = None ->
  getEnergyData this w in_railIndices [] = (w, ([], STATUS_OK))
  /\ getRailInfo this w [] = (w, ([], STATUS_OK))
  /\ (forall out, getEnergyData this w in_railIndices out = (w, (out, STATUS_OK)))
  /\ (forall out, getRailInfo this w out = (w, (out, STATUS_OK))).
Proof.
  intros Hnone. unfold getEnergyData, getRailInfo. rewrite Hnone. auto.
Qed.

(** C6. On every object built by registrations (with at most 2^31 entities,
    the range of the 32-bit id counter), the stored ids read 0, 1, ..., N-1
    in table order; a further registration of either kind keeps every
    existing row of both tables and only adds rows at the end. *)
Theorem registered_ids_sequential this :
  registered this ->
  Z.of_nat (length (mPowerEntityInfos this)) <= 2 ^ 31 ->
  PowerEntityInfo.powerEntityId <$> mPowerEntityInfos this
  = seqZ 0 (Z.of_nat (length (mPowerEntityInfos this)))
  /\ (forall p,
        mPowerEntityInfos this
          `prefix_of` mPowerEntityInfos (addStateResidencyDataProvider this p)
        /\ mStateResidencyDataProviders this
          `prefix_of` mStateResidencyDataProviders
                        (addStateResidencyDataProvider this p))
  /\ (forall q,
        mPowerEntityInfos (setRailDataProvider this q) = mPowerEntityInfos this
        /\ mStateResidencyDataProviders (setRailDataProvider this q)
           = mStateResidencyDataProviders this).
Proof.
  intros Hreg Hfit. split; [|split].
  - induction Hreg as [|this q Hreg IH|this p Hreg IH]; [reflexivity|auto|].
    unfold addStateResidencyDataProvider in *.
    destruct (addEntities_spec p (IStateResidencyDataProvider.getInfo p)
                (int32_wrap (Z.of_nat (length (mPowerEntityInfos this)))) this)
      as (new & Hi & _ & _ & Hlen & Hids).
    rewrite Hi in *. rewrite length_app in *.
    rewrite fmap_app, IH by lia.
    replace (Z.of_nat (length (mPowerEntityInfos this) + length new))
      with (Z.of_nat (length (mPowerEntityInfos this)) + Z.of_nat (length new))
      by lia.
    rewrite seqZ_app by lia. f_equal.
    destruct new as [|i new]; [reflexivity|].
    rewrite int32_wrap_id in Hids
      by (unfold is_int32; cbn [length] in *; lia).
    rewrite Hids, Hlen by lia. f_equal.
  - intros p. unfold addStateResidencyDataProvider.
    destruct (addEntities_spec p (IStateResidencyDataProvider.getInfo p)
                (int32_wrap (Z.of_nat (length (mPowerEntityInfos this)))) this)
      as (new & -> & -> & _).
    split; apply prefix_app_r; reflexivity.
  - intros q. split; reflexivity.
Qed.

(** C9. The two per-entity tables start with equal length and both
    registration calls keep them so (the queries do not change the object);
    with the tables of equal length, every id that passes the range check
    finds its provider, and the query completes for every id list. *)
Theorem tables_aligned_lookup_in_bounds this :
  aligned this ->
  aligned (init W)
  /\ (forall q, aligned (setRailDataProvider this q))
  /\ (forall p, aligned (addStateResidencyDataProvider this p))
  /\ (forall id,
        0 <= id < Z.of_nat (length (mPowerEntityInfos this)) ->
        is_Some (mStateResidencyDataProviders this !! Z.to_nat id))
  /\ (forall w ids ret,
        is_Some (getPowerEntityStateResidencyData this w ids ret)).
Proof.
  intros Hal. repeat split.
  - intros q. apply aligned_setRailDataProvider, Hal.
  - intros p. apply aligned_addStateResidencyDataProvider, Hal.
  - intros id Hid. apply valid_provider; [exact Hal|].
    apply invalidId_false, Hid.
  - intros w ids ret. rewrite getPowerEntityStateResidencyData_loop.
    apply visitAll_total, Hal.
Qed.

End QueryFacts.

(** ** Properties of the conversion to milliwatt-seconds *)

(** Below 2^24 in magnitude the cast to [float] loses nothing. *)
Lemma float_of_int64_exact (z : Z) :
  Z.abs z < 2 ^ 24 -> float_of_int64 z = z.
Proof.
  intros Hz. unfold float_of_int64.
  assert (Z.max 0 (Z.log2 (Z.abs z) - 23) = 0) as ->.
  { destruct (decide (Z.abs z = 0)) as [->|Hnz]; [reflexivity|].
    assert (Z.log2 (Z.abs z) < 24) by (apply Z.log2_lt_pow2; lia).
    lia. }
  unfold round_half_even.
  rewrite Z.pow_0_r, Z.div_1_r, Z.mod_1_r.
  change (2 * 0 ?= 1) with Lt. cbv iota. lia.
Qed.

Lemma toMilliwattSeconds_zero : toMilliwattSeconds 0 = double_zero.
Proof. reflexivity. Qed.

(** Above 2^24 the low bits go: 2^40 + 30000 microwatt-seconds reach the
    report as 2^40, and a tie goes to the even neighbour. *)
Example float_of_int64_rounds :
  float_of_int64 (2 ^ 40 + 30000) = 2 ^ 40
  /\ float_of_int64 (2 ^ 24 + 1) = 2 ^ 24
  /\ float_of_int64 (2 ^ 24 + 3) = 2 ^ 24 + 4
  /\ float_of_int64 (- 2 ^ 63) = - 2 ^ 63.
Proof. vm_compute. auto. Qed.

(** 1500 microwatt-seconds are 1.5 milliwatt-seconds, 3 * 2^51 * 2^-52. *)
Example toMilliwattSeconds_1500 :
  toMilliwattSeconds 1500 = mkDouble (3 * 2 ^ 51) (- 52)
  /\ toMilliwattSeconds (- 1000) = mkDouble (- 2 ^ 52) (- 52).
Proof. vm_compute. auto. Qed.

(** ** Properties of the dump *)

Section DumpFacts.
Context {W : Type}.
Variable boot_clock_now : W -> W * Z.
Implicit Types (this : t W) (s : Statics) (oss : list Chunk).

Lemma lookup_emplace {K : Type} `{Countable K} {V : Type} (k k' : K) (v x : V)
    (m : gmap K V) :
  emplace k v m !! k' = Some x ->
  m !! k' = Some x \/ (k' = k /\ x = v /\ m !! k = None).
Proof.
  unfold emplace. destruct (m !! k) eqn:E; [auto|].
  destruct (decide (k = k')) as [<-|Hne].
  - rewrite lookup_insert_eq. intros [= <-]. auto.
  - rewrite lookup_insert_ne by assumption. auto.
Qed.

Lemma elapsedMs_same (t : Z) : elapsedMs t t = 0.
Proof. unfold elapsedMs. rewrite Z.sub_diag. reflexivity. Qed.

(** A rail index found in the table of previous readings has a record in
    the previous snapshot. *)
Lemma prevEnergyDataMapOf_lookup (prev : list EnergyData.t) (k v : Z) :
  prevEnergyDataMapOf prev !! k = Some v -> railInSnapshot prev k.
Proof.
  unfold prevEnergyDataMapOf.
  enough (forall acc : gmap Z Z,
            foldl (fun m data =>
                     emplace (EnergyData.railIndex data)
                       (EnergyData.energyUWs data) m) acc prev !! k = Some v ->
            is_Some (acc !! k) \/ railInSnapshot prev k) as Hgen.
  { intros Hl. destruct (Hgen ∅ Hl) as [[x Hx]|]; [|assumption].
    rewrite lookup_empty in Hx. discriminate. }
  induction prev as [|data prev IH]; cbn; intros acc Hl; [eauto|].
  destruct (IH _ Hl) as [[x Hx]|(d & Hd & Hk)].
  - apply lookup_emplace in Hx as [Hx|(-> & _ & _)]; [eauto|].
    right. exists data. split; [apply list_elem_of_here|reflexivity].
  - right. exists d. split; [apply list_elem_of_further, Hd|exact Hk].
Qed.

(** The row of a reading whose rail index the previous snapshot lacks shows
    the delta 0, converted like every delta. *)
Lemma railRowDelta_absent (railNames : gmap Z (string * string))
    (prev : list EnergyData.t) (data : EnergyData.t) (row : Chunk) :
  railRowDelta railNames (prevEnergyDataMapOf prev) data = Some row ->
  exists subsysName railName deltaEnergy,
    row = RailRowDelta subsysName railName
            (toMilliwattSeconds (EnergyData.energyUWs data))
            (toMilliwattSeconds deltaEnergy)
    /\ (~ railInSnapshot prev (EnergyData.railIndex data) -> deltaEnergy = 0).
Proof.
  unfold railRowDelta.
  destruct (railNames !! EnergyData.railIndex data) as [names|];
    [|discriminate].
  cbn. intros [= <-]. do 3 eexists. split; [reflexivity|].
  intros Habsent.
  destruct (prevEnergyDataMapOf prev !! EnergyData.railIndex data) eqn:E;
    [|reflexivity].
  exfalso. eauto using prevEnergyDataMapOf_lookup.
Qed.

(** The dump of rail energy completes exactly when every reading has its
    rail in the name table. *)
Lemma dumpRailEnergy_completes this (w : W) s oss (delta : bool) :
  is_Some (dumpRailEnergy boot_clock_now this w s oss delta)
  <-> Forall (fun data =>
                is_Some (railNamesNow this w !! EnergyData.railIndex data))
        (railEnergyNow this w).2.
Proof.
  unfold dumpRailEnergy, railNamesNow, railEnergyNow.
  destruct (getRailEnergyMaps this w) as [w1 railNames]. cbn [fst snd].
  destruct (getEnergyData this w1 [] []) as [w2 [energyData st]].
  cbn [fst snd].
  assert (forall (g : EnergyData.t -> option Chunk),
            (forall data,
               is_Some (g data)
               <-> is_Some (railNames !! EnergyData.railIndex data)) ->
            (is_Some (mapM g energyData)
             <-> Forall (fun data =>
                           is_Some (railNames !! EnergyData.railIndex data))
                   energyData)) as Hrows.
  { intros g Hg. rewrite mapM_is_Some. apply Forall_proper; [|reflexivity].
    intros data. apply Hg. }
  destruct delta.
  - destruct (boot_clock_now w2) as [w3 curTime].
    rewrite <- (Hrows (railRowDelta railNames
                         (prevEnergyDataMapOf (prevEnergyData s)))).
    + destruct (mapM _ energyData); cbn; split; intros [? ?]; eauto;
        discriminate.
    + intros data. unfold railRowDelta.
      destruct (railNames !! EnergyData.railIndex data); cbn; split;
        intros [? ?]; eauto; discriminate.
  - rewrite <- (Hrows (railRow railNames)).
    + destruct (mapM _ energyData); cbn; split; intros [? ?]; eauto;
        discriminate.
    + intros data. unfold railRow.
      destruct (railNames !! EnergyData.railIndex data); cbn; split;
        intros [? ?]; eauto; discriminate.
Qed.

(** The inner loop of the table of previous results, for the states of one
    result of entity [id0]: a state found afterwards was in the table before
    or is one of these states. *)
Lemma prevStates_lookup (id0 : Z)
    (states : list PowerEntityStateResidencyData.t) :
  forall (acc : gmap Z (gmap Z PowerEntityStateResidencyData.t)) id stateId m d,
    foldl (fun m' stateResidency =>
             alter (emplace
                      (PowerEntityStateResidencyData.powerEntityStateId
                         stateResidency)
                      stateResidency) id0 m') acc states !! id = Some m ->
    m !! stateId = Some d ->
    (exists m0, acc !! id = Some m0 /\ is_Some (m0 !! stateId))
    \/ (id = id0
        /\ exists stateResidency,
             stateResidency ∈ states
             /\ PowerEntityStateResidencyData.powerEntityStateId stateResidency
                = stateId).
Proof.
  induction states as [|sr states IH]; cbn; intros acc id stateId m d Hm Hd.
  - left. eauto.
  - destruct (IH _ _ _ _ _ Hm Hd) as [(m0 & Hm0 & [x Hx])|(-> & sr' & Hin & Hk)].
    + destruct (decide (id0 = id)) as [<-|Hne].
      * rewrite lookup_alter_eq in Hm0.
        destruct (acc !! id0) as [m00|] eqn:E; [|discriminate].
        cbn in Hm0. injection Hm0 as <-.
        apply lookup_emplace in Hx as [Hx|(-> & _ & _)]; [left; eauto|].
        right. split; [reflexivity|]. exists sr.
        split; [apply list_elem_of_here|reflexivity].
      * rewrite lookup_alter_ne in Hm0 by assumption. left. eauto.
    + right. split; [reflexivity|]. exists sr'.
      split; [apply list_elem_of_further, Hin|exact Hk].
Qed.

(** An entity id and state id found in the table of previous results have a
    record in the previous snapshot. *)
Lemma prevResultsMapOf_lookup
    (prev : list PowerEntityStateResidencyResult.t) (id stateId : Z)
    (m : gmap Z PowerEntityStateResidencyData.t)
    (d : PowerEntityStateResidencyData.t) :
  prevResultsMapOf prev !! id = Some m -> m !! stateId = Some d ->
  stateInSnapshot prev id stateId.
Proof.
  unfold prevResultsMapOf.
  set (step := fun (m : gmap Z (gmap Z PowerEntityStateResidencyData.t))
                   prevResult => _).
  enough (forall acc m,
            foldl step acc prev !! id = Some m -> m !! stateId = Some d ->
            (exists m0, acc !! id = Some m0 /\ is_Some (m0 !! stateId))
            \/ stateInSnapshot prev id stateId) as Hgen.
  { intros Hm Hd. destruct (Hgen ∅ m Hm Hd) as [(m0 & Hm0 & _)|]; [|assumption].
    rewrite lookup_empty in Hm0. discriminate. }
  clear m. induction prev as [|result prev IH]; cbn; intros acc m Hm Hd.
  - left. eauto.
  - destruct (IH _ _ Hm Hd) as [(m0 & Hm0 & [x Hx])|(r & sr & Hr & ? & ? & ?)].
    + subst step. cbn beta in Hm0.
      destruct (prevStates_lookup _ _ _ _ _ _ _ Hm0 Hx)
        as [(m1 & Hm1 & Hs)|(-> & sr & Hin & Hk)].
      * apply lookup_emplace in Hm1 as [Hm1|(_ & -> & _)]; [left; eauto|].
        destruct Hs as [y Hy]. rewrite lookup_empty in Hy. discriminate.
      * right. exists result, sr.
        split; [apply list_elem_of_here|]. auto.
    + right. exists r, sr. split; [apply list_elem_of_further, Hr|]. auto.
Qed.

(** The row of a state whose entity id and state id the previous snapshot
    lacks shows three deltas 0. *)
Lemma residencyRowDelta_absent (stateNames : gmap Z (gmap Z string))
    (prev : list PowerEntityStateResidencyResult.t) (id : Z)
    (entityName : string) (stateResidency : PowerEntityStateResidencyData.t)
    (row : Chunk) :
  residencyRowDelta stateNames id entityName (prevResultsMapOf prev !! id)
    stateResidency = Some row ->
  exists stateName deltaTotalTime deltaTotalCount deltaTimestamp,
    row = ResidencyRowDelta entityName stateName
            (PowerEntityStateResidencyData.totalTimeInStateMs stateResidency)
            deltaTotalTime
            (PowerEntityStateResidencyData.totalStateEntryCount stateResidency)
            deltaTotalCount
            (PowerEntityStateResidencyData.lastEntryTimestampMs stateResidency)
            deltaTimestamp
    /\ (~ stateInSnapshot prev id
            (PowerEntityStateResidencyData.powerEntityStateId stateResidency) ->
        deltaTotalTime = 0 /\ deltaTotalCount = 0 /\ deltaTimestamp = 0).
Proof.
  unfold residencyRowDelta.
  destruct (stateNameAt stateNames id _) as [stateName|]; [|discriminate].
  cbn.
  destruct (residencyDeltas (prevResultsMapOf prev !! id) stateResidency)
    as [[dt dc] dts] eqn:E.
  intros [= <-]. do 4 eexists. split; [reflexivity|].
  intros Habsent. unfold residencyDeltas in E.
  destruct (prevResultsMapOf prev !! id) as [m|] eqn:Hm; [|by injection E].
  destruct (m !! PowerEntityStateResidencyData.powerEntityStateId
                   stateResidency) as [d|] eqn:Hd; [|by injection E].
  exfalso. eauto using prevResultsMapOf_lookup.
Qed.

(** The delta-mode rail report: its layout, and its rows against the
    readings it was made from. *)
Lemma dumpRailEnergy_delta_rows this (w : W) s oss w' s' out :
  dumpRailEnergy boot_clock_now this w s oss true = Some (w', s', out) ->
  exists elapsed rows,
    out = oss ++ [railBanner; ElapsedTime elapsed; RailHeaderDelta]
              ++ rows ++ [railEndBanner]
    /\ Forall2
         (fun data row =>
            exists subsysName railName deltaEnergy,
              row = RailRowDelta subsysName railName
                      (toMilliwattSeconds (EnergyData.energyUWs data))
                      (toMilliwattSeconds deltaEnergy)
              /\ (~ railInSnapshot (prevEnergyData s)
                      (EnergyData.railIndex data) ->
                  deltaEnergy = 0))
         (railEnergyNow this w).2 rows
    /\ (railPrevTime s = None -> elapsed = 0).
Proof.
  unfold dumpRailEnergy, railEnergyNow.
  destruct (getRailEnergyMaps this w) as [w1 railNames]. cbn [fst snd].
  destruct (getEnergyData this w1 [] []) as [w2 [energyData st]].
  cbn [fst snd].
  destruct (boot_clock_now w2) as [w3 curTime].
  destruct (mapM _ energyData) as [rows|] eqn:Hrows; [|discriminate].
  cbn. intros [= <- <- <-].
  exists (elapsedMs curTime (default curTime (railPrevTime s))), rows.
  split; [by rewrite <- !app_assoc|]. split.
  - apply mapM_Some in Hrows.
    eapply Forall2_impl; [exact Hrows|].
    intros data row. apply railRowDelta_absent.
  - intros ->. apply elapsedMs_same.
Qed.

(** The delta-mode residency report, likewise. *)
Lemma dumpStateResidency_delta_rows this (w : W) s oss w' s' out :
  dumpStateResidency boot_clock_now this w s oss true = Some (w', s', out) ->
  exists f elapsed rowss,
    getPowerEntityStateResidencyData this w [] [] = Some f
    /\ out = oss ++ [residencyBanner; ElapsedTime elapsed; ResidencyHeaderDelta]
                ++ concat rowss ++ [residencyEndBanner]
    /\ Forall2
         (fun result rows =>
            Forall2
              (fun stateResidency row =>
                 exists entityName stateName deltaTotalTime deltaTotalCount
                        deltaTimestamp,
                   row = ResidencyRowDelta entityName stateName
                           (PowerEntityStateResidencyData.totalTimeInStateMs
                              stateResidency)
                           deltaTotalTime
                           (PowerEntityStateResidencyData.totalStateEntryCount
                              stateResidency)
                           deltaTotalCount
                           (PowerEntityStateResidencyData.lastEntryTimestampMs
                              stateResidency)
                           deltaTimestamp
                   /\ (~ stateInSnapshot (prevResults s)
                           (PowerEntityStateResidencyResult.powerEntityId result)
                           (PowerEntityStateResidencyData.powerEntityStateId
                              stateResidency) ->
                       deltaTotalTime = 0 /\ deltaTotalCount = 0
                       /\ deltaTimestamp = 0))
              (PowerEntityStateResidencyResult.stateResidencyData result) rows)
         (aidl_return f) rowss
    /\ (residencyPrevTime s = None -> elapsed = 0).
Proof.
  unfold dumpStateResidency.
  destruct (getEntityStateMaps this) as [entityNames stateNames].
  destruct (getPowerEntityStateResidencyData this w [] []) as [f|];
    [|discriminate].
  cbn.
  destruct (boot_clock_now (world f)) as [w2 curTime].
  destruct (mapM _ (aidl_return f)) as [rowss|] eqn:Hrows; [|discriminate].
  cbn. intros [= <- <- <-].
  exists f, (elapsedMs curTime (default curTime (residencyPrevTime s))), rowss.
  split; [reflexivity|]. split; [by rewrite <- !app_assoc|]. split.
  - apply mapM_Some in Hrows.
    eapply Forall2_impl; [exact Hrows|].
    intros result rows. unfold residencyRowsDelta.
    destruct (entityNames !! _) as [entityName|]; [|discriminate].
    cbn. intros Hrow. apply mapM_Some in Hrow.
    eapply Forall2_impl; [exact Hrow|].
    intros stateResidency row Hr. exists entityName.
    eapply residencyRowDelta_absent, Hr.
  - intros ->. apply elapsedMs_same.
Qed.

Lemma Forall2_deltasZero {A : Type} (P : A -> Chunk -> Prop)
    (l : list A) (rows : list Chunk) :
  Forall2 P l rows -> (forall x row, P x row -> deltasZero row) ->
  Forall deltasZero rows.
Proof. induction 1; intros HP; constructor; eauto. Qed.

(** C7. In a delta-mode report that completes, the rows stand one per
    record of the current snapshot, in its order, and the row of a record
    whose key (rail index; entity id with state id) has no record in the
    stored previous snapshot shows delta 0 for every metric. On the first
    delta call of a generator, when its stored snapshot is empty and its
    stored time not yet set, the elapsed time and all deltas are 0. *)
Theorem delta_zero_without_previous_record this (w : W) s oss :
  (forall w' s' out,
     dumpRailEnergy boot_clock_now this w s oss true = Some (w', s', out) ->
     exists elapsed rows,
       out = oss ++ [railBanner; ElapsedTime elapsed; RailHeaderDelta]
                 ++ rows ++ [railEndBanner]
       /\ Forall2
            (fun data row =>
               exists subsysName railName deltaEnergy,
                 row = RailRowDelta subsysName railName
                         (toMilliwattSeconds (EnergyData.energyUWs data))
                         (toMilliwattSeconds deltaEnergy)
                 /\ (~ railInSnapshot (prevEnergyData s)
                         (EnergyData.railIndex data) ->
                     deltaEnergy = 0))
            (railEnergyNow this w).2 rows
       /\ (prevEnergyData s = [] -> railPrevTime s = None ->
           Forall deltasZero (ElapsedTime elapsed :: rows)))
  /\ (forall w' s' out,
        dumpStateResidency boot_clock_now this w s oss true
        = Some (w', s', out) ->
        exists f elapsed rowss,
          getPowerEntityStateResidencyData this w [] [] = Some f
          /\ out = oss ++ [residencyBanner; ElapsedTime elapsed;
                           ResidencyHeaderDelta]
                      ++ concat rowss ++ [residencyEndBanner]
          /\ Forall2
               (fun result rows =>
                  Forall2
                    (fun stateResidency row =>
                       exists entityName stateName deltaTotalTime
                              deltaTotalCount deltaTimestamp,
                         row = ResidencyRowDelta entityName stateName
                                 (PowerEntityStateResidencyData.totalTimeInStateMs
                                    stateResidency)
                                 deltaTotalTime
                                 (PowerEntityStateResidencyData.totalStateEntryCount
                                    stateResidency)
                                 deltaTotalCount
                                 (PowerEntityStateResidencyData.lastEntryTimestampMs
                                    stateResidency)
                                 deltaTimestamp
                         /\ (~ stateInSnapshot (prevResults s)
                                 (PowerEntityStateResidencyResult.powerEntityId
                                    result)
                                 (PowerEntityStateResidencyData.powerEntityStateId
                                    stateResidency) ->
                             deltaTotalTime = 0 /\ deltaTotalCount = 0
                             /\ deltaTimestamp = 0))
                    (PowerEntityStateResidencyResult.stateResidencyData result)
                    rows)
               (aidl_return f) rowss
          /\ (prevResults s = [] -> residencyPrevTime s = None ->
              Forall deltasZero (ElapsedTime elapsed :: concat rowss))).
Proof.
  split.
  - intros w' s' out Hd.
    destruct (dumpRailEnergy_delta_rows this w s oss w' s' out Hd)
      as (elapsed & rows & Hout & Hrows & Hel).
    exists elapsed, rows. repeat split; try assumption.
    intros Hprev Htime. constructor; [cbn; auto|].
    eapply Forall2_deltasZero; [exact Hrows|].
    intros data row (sn & rn & d & -> & Hz). cbn. rewrite Hz; [reflexivity|].
    rewrite Hprev. intros (x & Hx & _). inversion Hx.
  - intros w' s' out Hd.
    destruct (dumpStateResidency_delta_rows this w s oss w' s' out Hd)
      as (f & elapsed & rowss & Hf & Hout & Hrows & Hel).
    exists f, elapsed, rowss. repeat split; try assumption.
    intros Hprev Htime. constructor; [cbn; auto|].
    apply Forall_concat.
    eapply Forall2_Forall_r; [exact Hrows|].
    apply Forall_forall. intros result _ rows Hrow.
    eapply Forall2_deltasZero; [exact Hrow|].
    intros sr row (en & sn & dt & dc & dts & -> & Hz). cbn. apply Hz.
    rewrite Hprev. intros (x & ? & Hx & _). inversion Hx.
Qed.


End DumpFacts.

(** ** Further properties of the registry *)

Section RegistryRows.
Context {W : Type}.
Implicit Types (this : t W) (p : IStateResidencyDataProvider.t W).

(** Row by row: the [k]-th entity of the provider's map lands [k] rows
    after the old end of both tables. *)
Lemma addEntities_rows p info : forall id this k entityName states,
  info !! k = Some (entityName, states) ->
  exists id',
    mPowerEntityInfos (addEntities p info id this)
      !! (length (mPowerEntityInfos this) + k)%nat
    = Some (PowerEntityInfo.mk id' entityName states)
    /\ mStateResidencyDataProviders (addEntities p info id this)
         !! (length (mStateResidencyDataProviders this) + k)%nat
       = Some p
    /\ (- 2 ^ 31 <= id -> id + Z.of_nat k < 2 ^ 31 -> id' = id + Z.of_nat k).
Proof.
  induction info as [|[n0 s0] rest IH]; intros id this k entityName states Hk;
    [discriminate|].
  cbn [addEntities].
  set (this' := mk (mRailEnergyDataProvider this)
                  (mPowerEntityInfos this ++ [PowerEntityInfo.mk id n0 s0])
                  (mStateResidencyDataProviders this ++ [p])).
  destruct k as [|k]; cbn in Hk.
  - injection Hk as -> ->. exists id.
    destruct (addEntities_spec p rest (int32_wrap (id + 1)) this')
      as (new & -> & -> & _).
    subst this'. cbn [mPowerEntityInfos mStateResidencyDataProviders].
    rewrite !Nat.add_0_r, <- !app_assoc.
    split; [|split].
    + rewrite lookup_app_r by lia. rewrite Nat.sub_diag. reflexivity.
    + rewrite lookup_app_r by lia. rewrite Nat.sub_diag. reflexivity.
    + lia.
  - destruct (IH (int32_wrap (id + 1)) this' k entityName states Hk)
      as (id' & Hi & Hp & Hid).
    exists id'. subst this'.
    cbn [mPowerEntityInfos mStateResidencyDataProviders] in Hi, Hp.
    rewrite length_app in Hi, Hp. cbn [length] in Hi, Hp.
    replace (length (mPowerEntityInfos this) + S k)%nat
      with (length (mPowerEntityInfos this) + 1 + k)%nat by lia.
    replace (length (mStateResidencyDataProviders this) + S k)%nat
      with (length (mStateResidencyDataProviders this) + 1 + k)%nat by lia.
    repeat split; try assumption.
    intros Hlo Hhi.
    rewrite int32_wrap_id in Hid by (unfold is_int32; lia).
    rewrite Hid; lia.
Qed.

(** Every row is owned by a provider that announced it: in an object built
    by registrations, the provider stored for a row lists that row's entity
    name and states in its [getInfo]. *)
Lemma registered_owner this :
  registered this ->
  forall i info p,
    mPowerEntityInfos this !! i = Some info ->
    mStateResidencyDataProviders this !! i = Some p ->
    (PowerEntityInfo.powerEntityName info, PowerEntityInfo.states info)
      ∈ IStateResidencyDataProvider.getInfo p.
Proof.
  induction 1 as [|this q Hreg IH|this p Hreg IH]; intros i info p' Hi Hp.
  - discriminate.
  - eauto.
  - pose proof (registered_aligned this Hreg) as Hal. unfold aligned in Hal.
    unfold addStateResidencyDataProvider in Hi, Hp.
    set (id0 := int32_wrap (Z.of_nat (length (mPowerEntityInfos this))))
      in *.
    destruct (addEntities_spec p (IStateResidencyDataProvider.getInfo p)
                id0 this) as (new & Ei & Ep & _ & Hlen & _).
    destruct (decide (i < length (mPowerEntityInfos this))%nat) as [Hlt|Hge].
    + rewrite Ei, lookup_app_l in Hi by assumption.
      rewrite Ep, lookup_app_l in Hp by lia. eauto.
    + assert (i < length (mPowerEntityInfos this)
                  + length (IStateResidencyDataProvider.getInfo p))%nat
        as Hi_lt.
      { apply lookup_lt_Some in Hi. rewrite Ei, length_app in Hi. lia. }
      destruct (lookup_lt_is_Some_2 (IStateResidencyDataProvider.getInfo p)
                  (i - length (mPowerEntityInfos this))) as [[n s] Hk];
        [lia|].
      destruct (addEntities_rows p _ id0 this _ n s Hk)
        as (id' & Hi' & Hp' & _).
      replace (length (mPowerEntityInfos this)
               + (i - length (mPowerEntityInfos this)))%nat with i
        in Hi' by lia.
      replace (length (mStateResidencyDataProviders this)
               + (i - length (mPowerEntityInfos this)))%nat with i
        in Hp' by lia.
      rewrite Hi' in Hi. rewrite Hp' in Hp.
      injection Hi as <-. injection Hp as <-. cbn.
      eapply list_elem_of_lookup_2, Hk.
Qed.

(** X1. Registering a provider on aligned tables puts its [k]-th entity at
    row N + k of both tables, N being the old number of rows: the row
    carries the entity's name and states as announced and, while it fits
    the 32-bit counter, the id N + k, and the provider stored for the row
    is the one being registered. *)
Theorem registration_places_entities this p k entityName states :
  aligned this ->
  IStateResidencyDataProvider.getInfo p !! k = Some (entityName, states) ->
  Z.of_nat (length (mPowerEntityInfos this) + k) < 2 ^ 31 ->
  mPowerEntityInfos (addStateResidencyDataProvider this p)
    !! (length (mPowerEntityInfos this) + k)%nat
  = Some (PowerEntityInfo.mk
            (Z.of_nat (length (mPowerEntityInfos this) + k))
            entityName states)
  /\ mStateResidencyDataProviders (addStateResidencyDataProvider this p)
       !! (length (mPowerEntityInfos this) + k)%nat
     = Some p.
Proof.
  intros Hal Hk Hfit. unfold aligned in Hal.
  unfold addStateResidencyDataProvider.
  destruct (addEntities_rows p _
              (int32_wrap (Z.of_nat (length (mPowerEntityInfos this))))
              this k entityName states Hk) as (id' & Hi & Hp & Hid).
  rewrite Hal in Hp. split; [|exact Hp].
  rewrite Hi. do 2 f_equal.
  rewrite int32_wrap_id in Hid by (unfold is_int32; lia).
  rewrite Hid; lia.
Qed.

(** X2. In every object built by registrations, the provider stored for an
    entity row announced that entity: the row's name and states are an
    entry of that provider's [getInfo]. *)
Theorem owner_announced_entity this i info p :
  registered this ->
  mPowerEntityInfos this !! i = Some info ->
  mStateResidencyDataProviders this !! i = Some p ->
  (PowerEntityInfo.powerEntityName info, PowerEntityInfo.states info)
    ∈ IStateResidencyDataProvider.getInfo p.
Proof. intros Hreg. apply registered_owner, Hreg. Qed.

End RegistryRows.

(** ** Further properties of the state-residency query *)

Section QueryResults.
Context {W : Type}.
Implicit Types (this : t W) (f : Frame (W := W)) (id : Z) (ids : list Z).

(** The three ways an iteration can end: the id is rejected and only the
    status changes; a result for the id is appended and the status stays;
    nothing is appended and the status is an error. *)
Lemma visit_cases this f id f' :
  visit this f id = Some f' ->
  (invalidId this id = true
   /\ f' = mkFrame (world f) (stateResidencies f) (aidl_return f)
             STATUS_BAD_VALUE (fetches f))
  \/ (invalidId this id = false
      /\ err f' = err f
      /\ exists d,
           aidl_return f'
           = aidl_return f ++ [PowerEntityStateResidencyResult.mk id d])
  \/ (invalidId this id = false
      /\ err f' <> STATUS_OK
      /\ aidl_return f' = aidl_return f).
Proof.
  unfold visit. destruct (invalidId this id) eqn:Hv.
  - intros [= <-]. left. auto.
  - destruct (mPowerEntityInfos this !! Z.to_nat id) as [info|];
      [|discriminate].
    cbn.
    destruct (fetch this id (PowerEntityInfo.powerEntityName info) f)
      as [f1|] eqn:Hf; [|discriminate].
    cbn. intros [= <-].
    pose proof (fetch_aidl_return _ _ _ _ _ Hf) as Hret.
    pose proof (fetch_err _ _ _ _ _ Hf) as Herr.
    unfold collect.
    destruct (stateResidencies f1 !! PowerEntityInfo.powerEntityName info)
      as [d|]; cbn; rewrite Hret, Herr.
    + right. left. eauto.
    + right. right. repeat split.
      destruct (decide (err f = STATUS_OK)); congruence.
Qed.

(** What a run of the loop adds to the out-vector, against the ids it ran
    over and the status it ends with. *)
Lemma visitAll_results this ids : forall f f',
  visitAll this ids f = Some f' ->
  exists new,
    aidl_return f' = aidl_return f ++ new
    /\ PowerEntityStateResidencyResult.powerEntityId <$> new `sublist_of` ids
    /\ Forall (fun res =>
                 invalidId this
                   (PowerEntityStateResidencyResult.powerEntityId res) = false)
         new
    /\ (err f' = STATUS_OK
        <-> err f = STATUS_OK
            /\ PowerEntityStateResidencyResult.powerEntityId <$> new = ids).
Proof.
  induction ids as [|id ids IH]; cbn; intros f f' H.
  - injection H as <-. exists []. rewrite app_nil_r.
    split; [reflexivity|]. split; [reflexivity|].
    split; [constructor|]. cbn. tauto.
  - destruct (visit this f id) as [f1|] eqn:Hv; [|discriminate]. cbn in H.
    destruct (IH f1 f' H) as (new2 & E2 & Hsub & Hvalid & Hok).
    pose proof (sublist_length _ _ Hsub) as Hlen.
    rewrite length_fmap in Hlen.
    destruct (visit_cases this f id f1 Hv)
      as [(Hinv & ->)|[(Hinv & Herr & d & E1)|(Hinv & Herr & E1)]].
    + exists new2. cbn in *.
      split; [exact E2|]. split; [apply sublist_cons, Hsub|].
      split; [exact Hvalid|]. split.
      * intros Hf'. apply Hok in Hf' as [? _]. discriminate.
      * intros [_ Heq]. apply (f_equal length) in Heq.
        rewrite length_fmap in Heq. cbn in Heq. lia.
    + exists (PowerEntityStateResidencyResult.mk id d :: new2).
      rewrite E2, E1, <- app_assoc. cbn.
      split; [reflexivity|]. split; [apply sublist_skip, Hsub|].
      split; [constructor; assumption|]. split.
      * intros Hf'. apply Hok in Hf' as [? ->]. split; congruence.
      * intros [Hf Heq]. injection Heq as Heq. apply Hok.
        split; congruence.
    + exists new2. rewrite E2, E1.
      split; [reflexivity|]. split; [apply sublist_cons, Hsub|].
      split; [exact Hvalid|]. split.
      * intros Hf'. apply Hok in Hf' as [? _]. contradiction.
      * intros [_ Heq]. apply (f_equal length) in Heq.
        rewrite length_fmap in Heq. cbn in Heq. lia.
Qed.

(** A run over ids that are all in range and supplied appends one result
    per id, in order, and leaves the status as it was. *)
Lemma visitAll_supplied this ids : forall f f',
  visitAll this ids f = Some f' ->
  (forall id, id ∈ ids -> invalidId this id = false /\ supplies this id) ->
  err f' = err f
  /\ exists new,
       aidl_return f' = aidl_return f ++ new
       /\ PowerEntityStateResidencyResult.powerEntityId <$> new = ids.
Proof.
  induction ids as [|id ids IH]; cbn; intros f f' H Hall.
  - injection H as <-. split; [reflexivity|]. exists [].
    rewrite app_nil_r. auto.
  - destruct (visit this f id) as [f1|] eqn:Hv; [|discriminate]. cbn in H.
    destruct (IH f1 f' H) as (Herr & new2 & E2 & Hids);
      [intros; apply Hall, list_elem_of_further; assumption|].
    destruct (Hall id (list_elem_of_here _ _)) as [Hvalid Hsup].
    assert (err f1 = err f
            /\ exists d,
                 aidl_return f1
                 = aidl_return f ++ [PowerEntityStateResidencyResult.mk id d])
      as (Herr1 & d & E1).
    { unfold visit in Hv. rewrite Hvalid in Hv.
      destruct (mPowerEntityInfos this !! Z.to_nat id) as [info|] eqn:Hi;
        [|discriminate].
      cbn in Hv.
      destruct (fetch this id (PowerEntityInfo.powerEntityName info) f)
        as [f0|] eqn:Hf; [|discriminate].
      cbn in Hv. injection Hv as <-.
      destruct (fetch_supplied this id info f f0 Hi Hsup Hf) as [d Hd].
      unfold collect. rewrite Hd. cbn.
      rewrite (fetch_aidl_return _ _ _ _ _ Hf), (fetch_err _ _ _ _ _ Hf).
      eauto. }
    split; [congruence|].
    exists (PowerEntityStateResidencyResult.mk id d :: new2).
    rewrite E2, E1, <- app_assoc. cbn. split; congruence.
Qed.

(** A run over ids that are all out of range touches only the status. *)
Lemma visitAll_all_invalid this ids : forall f,
  (forall id, id ∈ ids -> invalidId this id = true) ->
  visitAll this ids f
  = Some (mkFrame (world f) (stateResidencies f) (aidl_return f)
            (match ids with [] => err f | _ => STATUS_BAD_VALUE end)
            (fetches f)).
Proof.
  induction ids as [|id ids IH]; intros f Hall; cbn.
  - destruct f; reflexivity.
  - unfold visit. rewrite (Hall id) by apply list_elem_of_here. cbn.
    rewrite IH by (intros; apply Hall, list_elem_of_further; assumption).
    cbn. destruct ids; reflexivity.
Qed.

(** Starting the loop on an out-vector that already holds [ret] changes
    nothing but that prefix of the final vector. *)
Lemma visitAll_prepend this ret ids : forall f,
  visitAll this ids
    (mkFrame (world f) (stateResidencies f) (ret ++ aidl_return f) (err f)
       (fetches f))
  = (fun g => mkFrame (world g) (stateResidencies g) (ret ++ aidl_return g)
                (err g) (fetches g))
      <$> visitAll this ids f.
Proof.
  induction ids as [|id ids IH]; intros f; cbn; [reflexivity|].
  unfold visit. destruct (invalidId this id).
  - cbn. apply (IH (mkFrame _ _ _ _ _)).
  - destruct (mPowerEntityInfos this !! Z.to_nat id) as [info|];
      [|reflexivity].
    cbn. unfold fetch. cbn [stateResidencies].
    destruct (stateResidencies f !! PowerEntityInfo.powerEntityName info)
      as [d|] eqn:Hd.
    + cbn. unfold collect. cbn [stateResidencies]. rewrite Hd. cbn.
      rewrite <- app_assoc. apply (IH (mkFrame _ _ _ _ _)).
    + destruct (mStateResidencyDataProviders this !! Z.to_nat id) as [p|];
        [|reflexivity].
      cbn. unfold collect. cbn [stateResidencies].
      destruct ((IStateResidencyDataProvider.getResults p (world f)
                   (stateResidencies f)).2
                  !! PowerEntityInfo.powerEntityName info); cbn.
      * rewrite <- app_assoc. apply (IH (mkFrame _ _ _ _ _)).
      * apply (IH (mkFrame _ _ _ _ _)).
Qed.

(** Ids produced by [iota] from 0 are in range of a table of that size
    which fits the 32-bit ids. *)
Lemma requested_empty_valid this id :
  Z.of_nat (length (mPowerEntityInfos this)) <= 2 ^ 31 ->
  id ∈ requested this [] -> invalidId this id = false.
Proof.
  intros Hfit. unfold requested, expands.
  destruct (mPowerEntityInfos this) as [|i infos] eqn:E;
    [intros Hin; inversion Hin|].
  rewrite <- E in *. rewrite iota_seqZ by lia.
  intros Hin. apply elem_of_seqZ in Hin. apply invalidId_false. lia.
Qed.

(** X3. The status of a completed call is OK exactly when the call appended
    one result per id its loop ran over, in the same order. *)
Theorem ok_iff_one_result_per_id this (w : W) ids ret f :
  getPowerEntityStateResidencyData this w ids ret = Some f ->
  exists new,
    aidl_return f = ret ++ new
    /\ (status f = STATUS_OK
        <-> PowerEntityStateResidencyResult.powerEntityId <$> new
            = requested this ids).
Proof.
  rewrite getPowerEntityStateResidencyData_loop. intros Hf.
  destruct (visitAll_results this _ _ _ Hf) as (new & E & _ & _ & Hok).
  exists new. split; [exact E|]. unfold status, fromStatus.
  rewrite Hok. cbn. tauto.
Qed.

(** X4. A completed call only appends to the out-vector; the ids of the
    appended results are in range and form a subsequence of the ids the
    loop ran over, so there are never more results than ids. *)
Theorem results_follow_request_order this (w : W) ids ret f :
  getPowerEntityStateResidencyData this w ids ret = Some f ->
  exists new,
    aidl_return f = ret ++ new
    /\ PowerEntityStateResidencyResult.powerEntityId <$> new
       `sublist_of` requested this ids
    /\ Forall (fun res =>
                 0 <= PowerEntityStateResidencyResult.powerEntityId res
                   < Z.of_nat (length (mPowerEntityInfos this)))
         new
    /\ (length new <= length (requested this ids))%nat.
Proof.
  rewrite getPowerEntityStateResidencyData_loop. intros Hf.
  destruct (visitAll_results this _ _ _ Hf) as (new & E & Hsub & Hvalid & _).
  exists new. repeat split; try assumption.
  - eapply Forall_impl; [exact Hvalid|].
    intros res. apply invalidId_false.
  - apply sublist_length in Hsub. rewrite length_fmap in Hsub. exact Hsub.
Qed.

(** X5. A call whose ids are all out of range (and there is at least one)
    completes with BAD_VALUE without asking any provider: the out-vector
    and the world are as they were, whatever the tables hold. *)
Theorem only_invalid_ids_touch_nothing this (w : W) ids ret :
  ids <> [] ->
  (forall id, id ∈ ids -> invalidId this id = true) ->
  getPowerEntityStateResidencyData this w ids ret
  = Some (mkFrame w ∅ ret STATUS_BAD_VALUE []).
Proof.
  intros Hne Hall. rewrite getPowerEntityStateResidencyData_loop.
  assert (requested this ids = ids) as ->.
  { unfold requested, expands. destruct ids; [contradiction|reflexivity]. }
  rewrite visitAll_all_invalid by assumption. cbn.
  destruct ids; [contradiction|reflexivity].
Qed.

(** X6. What the out-vector holds at entry does not influence the call: the
    outcome is that of the call on an empty vector, with the old contents
    in front of the results. *)
Theorem out_vector_contents_are_kept this (w : W) ids ret :
  getPowerEntityStateResidencyData this w ids ret
  = (fun g => mkFrame (world g) (stateResidencies g) (ret ++ aidl_return g)
                (err g) (fetches g))
      <$> getPowerEntityStateResidencyData this w ids [].
Proof.
  rewrite !getPowerEntityStateResidencyData_loop.
  rewrite <- (visitAll_prepend this ret _ (entry w [])).
  unfold entry. cbn. rewrite app_nil_r. reflexivity.
Qed.

(** X7. The call for all entities (empty id list) on aligned tables that
    fit the 32-bit ids never reports BAD_VALUE; and when every entity's
    provider supplies data it reports OK with exactly one result per
    entity, in id order 0, 1, ..., N-1. *)
Theorem query_for_all_entities this (w : W) :
  aligned this ->
  Z.of_nat (length (mPowerEntityInfos this)) <= 2 ^ 31 ->
  exists f,
    getPowerEntityStateResidencyData this w [] [] = Some f
    /\ status f <> STATUS_BAD_VALUE
    /\ ((forall id,
           0 <= id < Z.of_nat (length (mPowerEntityInfos this)) ->
           supplies this id) ->
        status f = STATUS_OK
        /\ PowerEntityStateResidencyResult.powerEntityId <$> aidl_return f
           = seqZ 0 (Z.of_nat (length (mPowerEntityInfos this)))).
Proof.
  intros Hal Hfit. rewrite getPowerEntityStateResidencyData_loop.
  destruct (visitAll_total this (requested this []) (entry w []) Hal)
    as [f Hf].
  exists f. split; [exact Hf|]. unfold status, fromStatus. split.
  - destruct (visitAll_valid_err this _ _ _ Hf) as [Hnb _].
    + intros id. apply requested_empty_valid, Hfit.
    + apply Hnb. discriminate.
  - intros Hsup.
    destruct (visitAll_supplied this _ _ _ Hf) as (Herr & new & E & Hids).
    + intros id Hin.
      pose proof (requested_empty_valid this id Hfit Hin) as Hvalid.
      split; [exact Hvalid|]. apply Hsup, invalidId_false, Hvalid.
    + split; [exact Herr|]. rewrite E. cbn. rewrite Hids.
      unfold requested, expands.
      destruct (mPowerEntityInfos this) as [|i infos] eqn:Ei;
        [reflexivity|].
      rewrite <- Ei in *. apply iota_seqZ; lia.
Qed.

(** *** The two branches of a fetch *)

Lemma fetch_cases this id name f f' :
  fetch this id name f = Some f' ->
  (is_Some (stateResidencies f !! name) /\ f' = f)
  \/ (stateResidencies f !! name = None
      /\ exists p,
           mStateResidencyDataProviders this !! Z.to_nat id = Some p
           /\ f' = mkFrame
                     (IStateResidencyDataProvider.getResults p (world f)
                        (stateResidencies f)).1
                     (IStateResidencyDataProvider.getResults p (world f)
                        (stateResidencies f)).2
                     (aidl_return f) (err f) (fetches f ++ [(id, name)])).
Proof.
  unfold fetch. destruct (stateResidencies f !! name) as [d|] eqn:Hd.
  - intros [= <-]. left. eauto.
  - destruct (mStateResidencyDataProviders this !! Z.to_nat id) as [p|];
      [|discriminate].
    cbn. intros [= <-]. right. eauto.
Qed.

Lemma collect_same id name f :
  fetches (collect id name f) = fetches f
  /\ stateResidencies (collect id name f) = stateResidencies f
  /\ world (collect id name f) = world f.
Proof. unfold collect. destruct (stateResidencies f !! name); auto. Qed.

(** *** Which calls are made, and what registration leaves alone *)

Lemma visit_fetches this f id f' :
  visit this f id = Some f' ->
  fetches f' = fetches f
  \/ (invalidId this id = false
      /\ exists info,
           mPowerEntityInfos this !! Z.to_nat id = Some info
           /\ fetches f'
              = fetches f ++ [(id, PowerEntityInfo.powerEntityName info)]).
Proof.
  unfold visit. destruct (invalidId this id); [intros [= <-]; auto|].
  destruct (mPowerEntityInfos this !! Z.to_nat id) as [info|] eqn:Hi;
    [|discriminate].
  cbn.
  destruct (fetch this id (PowerEntityInfo.powerEntityName info) f)
    as [f1|] eqn:Hf; [|discriminate].
  cbn. intros [= <-].
  destruct (collect_same id (PowerEntityInfo.powerEntityName info) f1)
    as (-> & _).
  destruct (fetch_cases _ _ _ _ _ Hf) as [[_ ->]|(_ & p & _ & ->)];
    [auto|].
  right. split; [reflexivity|]. eauto.
Qed.

Lemma visitAll_fetches this ids : forall f f',
  visitAll this ids f = Some f' ->
  exists log,
    fetches f' = fetches f ++ log
    /\ log.*1 `sublist_of` ids
    /\ Forall (fun e =>
                 invalidId this e.1 = false
                 /\ exists info,
                      mPowerEntityInfos this !! Z.to_nat e.1 = Some info
                      /\ e.2 = PowerEntityInfo.powerEntityName info)
         log.
Proof.
  induction ids as [|id ids IH]; cbn; intros f f' H.
  - injection H as <-. exists []. rewrite app_nil_r.
    split; [reflexivity|]. split; [reflexivity|constructor].
  - destruct (visit this f id) as [f1|] eqn:Hv; [|discriminate]. cbn in H.
    destruct (IH f1 f' H) as (log & E & Hsub & Hall).
    destruct (visit_fetches this f id f1 Hv) as [E1|(Hvalid & info & Hi & E1)].
    + exists log. rewrite E, E1.
      split; [reflexivity|]. split; [apply sublist_cons, Hsub|exact Hall].
    + exists ((id, PowerEntityInfo.powerEntityName info) :: log).
      rewrite E, E1, <- app_assoc. cbn.
      split; [reflexivity|]. split; [apply sublist_skip, Hsub|].
      constructor; [|exact Hall]. cbn. eauto.
Qed.

(** A further registration does not change what an iteration does for an
    id that was in range before it. *)
Lemma visit_after_registration this p f id :
  aligned this -> invalidId this id = false ->
  visit (addStateResidencyDataProvider this p) f id = visit this f id.
Proof.
  intros Hal Hv. unfold aligned in Hal.
  pose proof (proj1 (invalidId_false this id) Hv) as Hid.
  unfold addStateResidencyDataProvider.
  set (id0 := int32_wrap (Z.of_nat (length (mPowerEntityInfos this)))).
  destruct (addEntities_spec p (IStateResidencyDataProvider.getInfo p)
              id0 this) as (new & Ei & Ep & _).
  unfold visit, fetch.
  assert (invalidId (addEntities p (IStateResidencyDataProvider.getInfo p)
                       id0 this) id = false) as ->.
  { apply invalidId_false. rewrite Ei, length_app. lia. }
  rewrite Hv, Ei, Ep.
  rewrite !lookup_app_l by lia. reflexivity.
Qed.

(** X18. The provider is only ever called for an id the loop ran over that
    is in range, on behalf of the name registered for that id, and at most
    once per such id: the recorded calls follow the order of the ids. *)
Theorem calls_are_for_requested_ids this (w : W) ids ret f :
  getPowerEntityStateResidencyData this w ids ret = Some f ->
  (fetches f).*1 `sublist_of` requested this ids
  /\ Forall (fun e =>
               0 <= e.1 < Z.of_nat (length (mPowerEntityInfos this))
               /\ exists info,
                    mPowerEntityInfos this !! Z.to_nat e.1 = Some info
                    /\ e.2 = PowerEntityInfo.powerEntityName info)
       (fetches f).
Proof.
  rewrite getPowerEntityStateResidencyData_loop. intros Hf.
  destruct (visitAll_fetches this _ _ _ Hf) as (log & E & Hsub & Hall).
  cbn in E. subst log. split; [exact Hsub|].
  eapply Forall_impl; [exact Hall|].
  intros e [Hv Hinfo]. split; [apply invalidId_false, Hv|exact Hinfo].
Qed.

(** X19. Registering a further residency provider changes nothing for the
    ids registered before: on aligned tables, a call whose ids (at least
    one) were all in range before the registration has the same outcome
    after it. *)
Theorem registration_keeps_old_answers this p (w : W) ids ret :
  aligned this -> ids <> [] ->
  (forall id, id ∈ ids ->
              0 <= id < Z.of_nat (length (mPowerEntityInfos this))) ->
  getPowerEntityStateResidencyData (addStateResidencyDataProvider this p)
    w ids ret
  = getPowerEntityStateResidencyData this w ids ret.
Proof.
  intros Hal Hne Hall. rewrite !getPowerEntityStateResidencyData_loop.
  assert (forall that : t W, requested that ids = ids) as Hreq.
  { intros that. unfold requested, expands.
    destruct ids; [contradiction|reflexivity]. }
  rewrite !Hreq. clear Hreq Hne. generalize (entry w ret).
  induction ids as [|id ids IH]; intros f; cbn; [reflexivity|].
  rewrite visit_after_registration;
    [|exact Hal|apply invalidId_false, Hall, list_elem_of_here].
  destruct (visit this f id); cbn; [|reflexivity].
  apply IH. intros id' Hin. apply Hall, list_elem_of_further, Hin.
Qed.

(** X20. The two kinds of registration do not interfere: registering a
    residency provider leaves [getEnergyData] and [getRailInfo] as they
    were, registering an energy provider leaves the entity table and the
    residency query as they were, and of two energy providers registered
    the later one alone answers. *)
Theorem registrations_do_not_interfere this p q q' (w : W)
    (in_railIndices ids : list Z) outE outR ret :
  getEnergyData (addStateResidencyDataProvider this p) w in_railIndices outE
  = getEnergyData this w in_railIndices outE
  /\ getRailInfo (addStateResidencyDataProvider this p) w outR
     = getRailInfo this w outR
  /\ getPowerEntityInfo (setRailDataProvider this q) []
     = getPowerEntityInfo this []
  /\ getPowerEntityStateResidencyData (setRailDataProvider this q) w ids ret
     = getPowerEntityStateResidencyData this w ids ret
  /\ getEnergyData (setRailDataProvider (setRailDataProvider this q) q') w
       in_railIndices outE
     = IRailEnergyDataProvider.getEnergyData q' w in_railIndices outE
  /\ getRailInfo (setRailDataProvider (setRailDataProvider this q) q') w outR
     = IRailEnergyDataProvider.getRailInfo q' w outR.
Proof.
  assert (mRailEnergyDataProvider (addStateResidencyDataProvider this p)
          = mRailEnergyDataProvider this) as Hrail.
  { unfold addStateResidencyDataProvider.
    destruct (addEntities_spec p (IStateResidencyDataProvider.getInfo p)
                (int32_wrap (Z.of_nat (length (mPowerEntityInfos this))))
                this) as (new & _ & _ & Hr & _).
    exact Hr. }
  unfold getEnergyData, getRailInfo. rewrite Hrail.
  split; [reflexivity|]. split; [reflexivity|]. split; [reflexivity|].
  split; [|split; reflexivity].
  rewrite !getPowerEntityStateResidencyData_loop.
  change (requested (setRailDataProvider this q) ids)
    with (requested this ids).
  generalize (requested this ids) (entry w ret).
  induction l as [|id l IH]; intros f; cbn; [reflexivity|].
  change (visit (setRailDataProvider this q) f id) with (visit this f id).
  destruct (visit this f id); cbn; [apply IH|reflexivity].
Qed.

(** *** One call per provider *)


Lemma visit_callsDistinct this f id f' :
  registered this ->
  (forall p, p ∈ mStateResidencyDataProviders this ->
             fillsAll p /\ neverRemoves p) ->
  visit this f id = Some f' ->
  calledAreFilled this f /\ callsDistinct this f ->
  calledAreFilled this f' /\ callsDistinct this f'.
Proof.
  intros Hreg Hprov Hv [Hfilled Hdistinct]. unfold visit in Hv.
  destruct (invalidId this id); [injection Hv as <-; auto|].
  destruct (mPowerEntityInfos this !! Z.to_nat id) as [info|] eqn:Hi;
    [|discriminate].
  cbn in Hv.
  destruct (fetch this id (PowerEntityInfo.powerEntityName info) f)
    as [f1|] eqn:Hf; [|discriminate].
  cbn in Hv. injection Hv as <-.
  destruct (collect_same id (PowerEntityInfo.powerEntityName info) f1)
    as (Ef & Es & _).
  unfold calledAreFilled, callsDistinct. rewrite Ef, Es.
  destruct (fetch_cases _ _ _ _ _ Hf) as [[_ ->]|(Hnone & p & Hp & ->)];
    [auto|].
  cbn [fetches stateResidencies].
  destruct (Hprov p (list_elem_of_lookup_2 _ _ _ Hp)) as [Hfill Hkeep].
  split.
  - intros id' n' p' name Hin Hp' Hname.
    apply elem_of_app in Hin as [Hin|Hin].
    + apply Hkeep. eapply Hfilled; eauto.
    + apply list_elem_of_singleton in Hin. injection Hin as -> ->.
      rewrite Hp in Hp'. injection Hp' as <-. apply Hfill, Hname.
  - intros i j id1 n1 id2 n2 p1 p2 Hij H1 H2 Hp1 Hp2.
    destruct (decide (j < length (fetches f))%nat) as [Hj|Hj].
    + rewrite lookup_app_l in H1, H2 by lia. eauto.
    + pose proof (lookup_lt_Some _ _ _ H2) as Hjlen.
      rewrite length_app in Hjlen. cbn in Hjlen.
      rewrite lookup_app_r in H2 by lia.
      replace (j - length (fetches f))%nat with 0%nat in H2 by lia.
      cbn in H2. injection H2 as <- <-.
      rewrite lookup_app_l in H1 by lia.
      rewrite Hp in Hp2. injection Hp2 as <-.
      intros ->.
      assert (is_Some (stateResidencies f
                         !! PowerEntityInfo.powerEntityName info)) as [d Hd].
      { eapply Hfilled; [eapply list_elem_of_lookup_2, H1|exact Hp1|].
        apply list_elem_of_fmap.
        exists (PowerEntityInfo.powerEntityName info,
                PowerEntityInfo.states info).
        split; [reflexivity|]. eapply registered_owner; eauto. }
      congruence.
Qed.

Lemma visitAll_callsDistinct this ids : forall f f',
  registered this ->
  (forall p, p ∈ mStateResidencyDataProviders this ->
             fillsAll p /\ neverRemoves p) ->
  visitAll this ids f = Some f' ->
  calledAreFilled this f /\ callsDistinct this f ->
  calledAreFilled this f' /\ callsDistinct this f'.
Proof.
  induction ids as [|id ids IH]; cbn; intros f f' Hreg Hprov H Hinv.
  - congruence.
  - destruct (visit this f id) as [f1|] eqn:Hv; [|discriminate]. cbn in H.
    eauto using visit_callsDistinct.
Qed.

(** X8. On an object built by registrations whose providers each fill in
    all the entities they announce and remove nothing from the map, a call
    asks every provider at most once: no two of the recorded [getResults]
    calls were made for ids owned by the same provider. *)
Theorem one_call_per_provider this (w : W) ids ret f :
  registered this ->
  (forall p, p ∈ mStateResidencyDataProviders this ->
             fillsAll p /\ neverRemoves p) ->
  getPowerEntityStateResidencyData this w ids ret = Some f ->
  forall i j id1 n1 id2 n2 p1 p2,
    (i < j)%nat ->
    fetches f !! i = Some (id1, n1) -> fetches f !! j = Some (id2, n2) ->
    mStateResidencyDataProviders this !! Z.to_nat id1 = Some p1 ->
    mStateResidencyDataProviders this !! Z.to_nat id2 = Some p2 ->
    p1 <> p2.
Proof.
  intros Hreg Hprov. rewrite getPowerEntityStateResidencyData_loop.
  intros Hf.
  destruct (visitAll_callsDistinct this _ _ _ Hreg Hprov Hf) as [_ Hd];
    [|exact Hd].
  split.
  - intros id n p name Hin. inversion Hin.
  - intros i j id1 n1 id2 n2 p1 p2 _ H1. discriminate.
Qed.

End QueryResults.

(** ** Further properties of the dump *)

Section DumpRows.
Context {W : Type}.
Variable boot_clock_now : W -> W * Z.
Implicit Types (this : t W) (s : Statics) (oss : list Chunk).

(** A table built by [emplace] in list order answers a key with the value
    of the first element that has the key. *)
Lemma foldl_emplace_lookup {A K V : Type} `{Countable K}
    (key : A -> K) (val : A -> V) (l : list A) :
  forall (acc : gmap K V) (k : K),
    foldl (fun m x => emplace (key x) (val x) m) acc l !! k
    = match acc !! k with
      | Some v => Some v
      | None => val <$> head (filter (fun x => key x = k) l)
      end.
Proof.
  induction l as [|x l IH]; intros acc k; cbn [foldl].
  - destruct (acc !! k); reflexivity.
  - rewrite IH, filter_cons. unfold emplace.
    destruct (acc !! key x) as [v0|] eqn:Hx.
    + destruct (acc !! k) as [v|] eqn:Hk; [reflexivity|].
      destruct (decide (key x = k)) as [<-|Hne]; [congruence|reflexivity].
    + destruct (decide (key x = k)) as [<-|Hne].
      * rewrite lookup_insert_eq, Hx. reflexivity.
      * rewrite lookup_insert_ne by assumption. reflexivity.
Qed.

Lemma prevEnergyDataMapOf_first (prev : list EnergyData.t) (k : Z) :
  prevEnergyDataMapOf prev !! k
  = EnergyData.energyUWs
      <$> head (filter (fun data => EnergyData.railIndex data = k) prev).
Proof.
  unfold prevEnergyDataMapOf.
  rewrite (foldl_emplace_lookup EnergyData.railIndex EnergyData.energyUWs).
  rewrite lookup_empty. reflexivity.
Qed.

(** With distinct keys, the first element with an element's key is that
    element. *)
Lemma head_filter_NoDup {A K : Type} `{EqDecision K} (key : A -> K)
    (l : list A) (x : A) :
  NoDup (key <$> l) -> x ∈ l ->
  head (filter (fun y => key y = key x) l) = Some x.
Proof.
  induction l as [|y l IH]; intros Hnd Hin; [inversion Hin|].
  cbn in Hnd. apply NoDup_cons in Hnd as [Hy Hnd].
  rewrite filter_cons.
  apply elem_of_cons in Hin as [->|Hin].
  - destruct (decide (key y = key y)); [reflexivity|contradiction].
  - destruct (decide (key y = key x)) as [E|_]; [|auto].
    exfalso. apply Hy. rewrite E. apply list_elem_of_fmap. eauto.
Qed.

(** Everything a completed delta-mode rail report returns. *)
Lemma dumpRailEnergy_delta_inv this (w : W) s oss w' s' out :
  dumpRailEnergy boot_clock_now this w s oss true = Some (w', s', out) ->
  let energyData := (railEnergyNow this w).2 in
  let now := boot_clock_now (railEnergyNow this w).1 in
  exists rows,
    mapM (railRowDelta (railNamesNow this w)
            (prevEnergyDataMapOf (prevEnergyData s))) energyData = Some rows
    /\ w' = now.1
    /\ s' = mkStatics energyData (Some now.2) (prevResults s)
              (residencyPrevTime s)
    /\ out = oss ++ [railBanner;
                     ElapsedTime
                       (elapsedMs now.2 (default now.2 (railPrevTime s)));
                     RailHeaderDelta]
                 ++ rows ++ [railEndBanner].
Proof.
  unfold dumpRailEnergy, railEnergyNow, railNamesNow.
  destruct (getRailEnergyMaps this w) as [w1 railNames]. cbn [fst snd].
  destruct (getEnergyData this w1 [] []) as [w2 [energyData st]].
  cbn [fst snd].
  destruct (boot_clock_now w2) as [w3 curTime]. cbn [fst snd].
  destruct (mapM _ energyData) as [rows|]; [|discriminate].
  cbn. intros [= <- <- <-]. exists rows.
  repeat split. by rewrite <- !app_assoc.
Qed.

(** The row of one reading, in full. *)
Lemma railRowDelta_value (railNames : gmap Z (string * string))
    (prev : list EnergyData.t) (data : EnergyData.t) (row : Chunk) :
  railRowDelta railNames (prevEnergyDataMapOf prev) data = Some row ->
  exists subsysName railName,
    railNames !! EnergyData.railIndex data = Some (subsysName, railName)
    /\ row = RailRowDelta subsysName railName
               (toMilliwattSeconds (EnergyData.energyUWs data))
               (toMilliwattSeconds
                  (match head (filter
                                 (fun old => EnergyData.railIndex old
                                             = EnergyData.railIndex data) prev)
                   with
                   | Some old =>
                       int64_wrap (EnergyData.energyUWs data
                                   - EnergyData.energyUWs old)
                   | None => 0
                   end)).
Proof.
  unfold railRowDelta. rewrite prevEnergyDataMapOf_first.
  destruct (railNames !! EnergyData.railIndex data) as [[sn rn]|];
    [|discriminate].
  cbn. intros [= <-]. exists sn, rn. split; [reflexivity|].
  destruct (head _); reflexivity.
Qed.

(** X9. The rail name table answers a rail index with the subsystem and
    rail name of the first [RailInfo] the provider lists for that index
    (later ones with the same index are ignored), and has no entry for an
    index the provider does not list. *)
Theorem rail_names_first_listed_wins this (w : W) (k : Z) :
  railNamesNow this w !! k
  = (fun info => (RailInfo.subsysName info, RailInfo.railName info))
      <$> head (filter (fun info => RailInfo.railIndex info = k)
                  (getRailInfo this w []).2.1).
Proof.
  unfold railNamesNow, getRailEnergyMaps. cbn [snd].
  rewrite (foldl_emplace_lookup RailInfo.railIndex
             (fun info => (RailInfo.subsysName info, RailInfo.railName info))).
  rewrite lookup_empty. reflexivity.
Qed.

(** X10. In a completed delta-mode rail report every row carries the names
    the table has for the reading's rail and the two values handed to
    [StringPrintf]: the reading, and the reading minus the first stored
    reading of the same rail index in 64 bits (0 when none is stored), each
    cast to [float] and divided by [1000.0]. The elapsed time shown is the
    time just read minus the stored time, in whole milliseconds (0 when no
    time is stored). *)
Theorem rail_delta_rows_in_full this (w : W) s oss w' s' out :
  dumpRailEnergy boot_clock_now this w s oss true = Some (w', s', out) ->
  exists rows,
    out = oss ++ [railBanner;
                  ElapsedTime
                    (match railPrevTime s with
                     | Some prevTime =>
                         elapsedMs
                           (boot_clock_now (railEnergyNow this w).1).2 prevTime
                     | None => 0
                     end);
                  RailHeaderDelta]
              ++ rows ++ [railEndBanner]
    /\ Forall2
         (fun data row =>
            exists subsysName railName,
              railNamesNow this w !! EnergyData.railIndex data
              = Some (subsysName, railName)
              /\ row = RailRowDelta subsysName railName
                         (toMilliwattSeconds (EnergyData.energyUWs data))
                         (toMilliwattSeconds
                            (match head (filter
                                           (fun old =>
                                              EnergyData.railIndex old
                                              = EnergyData.railIndex data)
                                           (prevEnergyData s))
                             with
                             | Some old =>
                                 int64_wrap (EnergyData.energyUWs data
                                             - EnergyData.energyUWs old)
                             | None => 0
                             end)))
         (railEnergyNow this w).2 rows.
Proof.
  intros Hd.
  destruct (dumpRailEnergy_delta_inv this w s oss w' s' out Hd)
    as (rows & Hrows & _ & _ & ->).
  exists rows. split.
  - destruct (railPrevTime s); cbn [default]; [reflexivity|].
    rewrite elapsedMs_same. reflexivity.
  - apply mapM_Some in Hrows. eapply Forall2_impl; [exact Hrows|].
    intros data row. apply railRowDelta_value.
Qed.

(** X11. When the stored snapshot has no rail index twice and the readings
    fetched by a delta-mode rail report equal the stored snapshot, every
    row of the completed report shows delta 0. *)
Theorem unchanged_readings_show_zero_deltas this (w : W) s oss w' s' out :
  NoDup (EnergyData.railIndex <$> prevEnergyData s) ->
  (railEnergyNow this w).2 = prevEnergyData s ->
  dumpRailEnergy boot_clock_now this w s oss true = Some (w', s', out) ->
  exists elapsed rows,
    out = oss ++ [railBanner; ElapsedTime elapsed; RailHeaderDelta]
              ++ rows ++ [railEndBanner]
    /\ length rows = length (prevEnergyData s)
    /\ Forall (fun row =>
                 exists subsysName railName energy,
                   row = RailRowDelta subsysName railName energy double_zero)
         rows.
Proof.
  intros Hnd Hsame Hd.
  destruct (dumpRailEnergy_delta_inv this w s oss w' s' out Hd)
    as (rows & Hrows & _ & _ & ->).
  do 2 eexists. split; [reflexivity|].
  apply mapM_Some in Hrows. rewrite Hsame in Hrows. split.
  - symmetry. eapply Forall2_length, Hrows.
  - eapply Forall2_Forall_r; [exact Hrows|].
    apply Forall_forall. intros data Hin row Hrow.
    destruct (railRowDelta_value _ _ _ _ Hrow) as (sn & rn & _ & ->).
    rewrite (head_filter_NoDup EnergyData.railIndex _ data Hnd Hin).
    rewrite Z.sub_diag. do 3 eexists. reflexivity.
Qed.

(** X12. Two delta-mode rail reports in a row: the second shows as elapsed
    time the difference of the two clock readings, and in each row the
    reading and its 64-bit difference against the first reading of that
    rail index fetched by the first report, each cast to [float] and
    divided by [1000.0]. *)
Theorem consecutive_rail_deltas this (w : W) s oss oss' w1 s1 out1 w2 s2 out2 :
  dumpRailEnergy boot_clock_now this w s oss true = Some (w1, s1, out1) ->
  dumpRailEnergy boot_clock_now this w1 s1 oss' true = Some (w2, s2, out2) ->
  exists rows,
    out2 = oss' ++ [railBanner;
                    ElapsedTime
                      (elapsedMs
                         (boot_clock_now (railEnergyNow this w1).1).2
                         (boot_clock_now (railEnergyNow this w).1).2);
                    RailHeaderDelta]
                ++ rows ++ [railEndBanner]
    /\ Forall2
         (fun data row =>
            exists subsysName railName,
              row = RailRowDelta subsysName railName
                      (toMilliwattSeconds (EnergyData.energyUWs data))
                      (toMilliwattSeconds
                         (match head (filter
                                        (fun old =>
                                           EnergyData.railIndex old
                                           = EnergyData.railIndex data)
                                        (railEnergyNow this w).2)
                          with
                          | Some old =>
                              int64_wrap (EnergyData.energyUWs data
                                          - EnergyData.energyUWs old)
                          | None => 0
                          end)))
         (railEnergyNow this w1).2 rows.
Proof.
  intros H1 H2.
  destruct (dumpRailEnergy_delta_inv this w s oss w1 s1 out1 H1)
    as (_ & _ & _ & -> & _).
  destruct (dumpRailEnergy_delta_inv this w1 _ oss' w2 s2 out2 H2)
    as (rows & Hrows & _ & _ & ->).
  cbn [railPrevTime prevEnergyData default] in *.
  exists rows. split; [reflexivity|].
  apply mapM_Some in Hrows. eapply Forall2_impl; [exact Hrows|].
  intros data row Hrow.
  destruct (railRowDelta_value _ _ _ _ Hrow) as (sn & rn & _ & ->). eauto.
Qed.

(** *** The table of previous results *)

Lemma lookup_emplace_ne {K : Type} `{Countable K} {V : Type} (k k' : K)
    (v : V) (m : gmap K V) :
  k <> k' -> emplace k v m !! k' = m !! k'.
Proof.
  intros Hne. unfold emplace. destruct (m !! k); [reflexivity|].
  apply lookup_insert_ne, Hne.
Qed.

Lemma lookup_emplace_fresh {K : Type} `{Countable K} {V : Type} (k : K)
    (v : V) (m : gmap K V) :
  m !! k = None -> emplace k v m !! k = Some v.
Proof.
  intros Hk. unfold emplace. rewrite Hk. apply lookup_insert_eq.
Qed.

Lemma emplace_keeps {K : Type} `{Countable K} {V : Type} (k k' : K)
    (v x : V) (m : gmap K V) :
  m !! k' = Some x -> emplace k v m !! k' = Some x.
Proof.
  intros Hx. unfold emplace. destruct (m !! k) eqn:E; [assumption|].
  rewrite lookup_insert_ne; [assumption|congruence].
Qed.

Lemma emplace_is_Some {K : Type} `{Countable K} {V : Type} (k : K) (v : V)
    (m : gmap K V) :
  is_Some (emplace k v m !! k).
Proof.
  unfold emplace. destruct (m !! k) eqn:E; [rewrite E; eauto|].
  rewrite lookup_insert_eq. eauto.
Qed.

(** A record found in the table is a record of the stored snapshot. *)
Lemma prevStates_lookup_value (id0 : Z)
    (states : list PowerEntityStateResidencyData.t) :
  forall (acc : gmap Z (gmap Z PowerEntityStateResidencyData.t)) id stateId m d,
    foldl (fun m' stateResidency =>
             alter (emplace
                      (PowerEntityStateResidencyData.powerEntityStateId
                         stateResidency)
                      stateResidency) id0 m') acc states !! id = Some m ->
    m !! stateId = Some d ->
    (exists m0, acc !! id = Some m0 /\ m0 !! stateId = Some d)
    \/ (id = id0 /\ d ∈ states
        /\ PowerEntityStateResidencyData.powerEntityStateId d = stateId).
Proof.
  induction states as [|sr states IH]; cbn; intros acc id stateId m d Hm Hd.
  - left. eauto.
  - destruct (IH _ _ _ _ _ Hm Hd) as [(m0 & Hm0 & Hx)|(-> & Hin & Hk)].
    + destruct (decide (id0 = id)) as [<-|Hne].
      * rewrite lookup_alter_eq in Hm0.
        destruct (acc !! id0) as [m00|] eqn:E; [|discriminate].
        cbn in Hm0. injection Hm0 as <-.
        apply lookup_emplace in Hx as [Hx|(-> & -> & _)]; [left; eauto|].
        right. split; [reflexivity|].
        split; [apply list_elem_of_here|reflexivity].
      * rewrite lookup_alter_ne in Hm0 by assumption. left. eauto.
    + right. split; [reflexivity|].
      split; [apply list_elem_of_further, Hin|exact Hk].
Qed.

Lemma prevResultsMapOf_lookup_value
    (prev : list PowerEntityStateResidencyResult.t) (id stateId : Z)
    (m : gmap Z PowerEntityStateResidencyData.t)
    (d : PowerEntityStateResidencyData.t) :
  prevResultsMapOf prev !! id = Some m -> m !! stateId = Some d ->
  exists result,
    result ∈ prev
    /\ PowerEntityStateResidencyResult.powerEntityId result = id
    /\ d ∈ PowerEntityStateResidencyResult.stateResidencyData result
    /\ PowerEntityStateResidencyData.powerEntityStateId d = stateId.
Proof.
  unfold prevResultsMapOf.
  set (step := fun (m : gmap Z (gmap Z PowerEntityStateResidencyData.t))
                   prevResult => _).
  enough (forall acc m,
            foldl step acc prev !! id = Some m -> m !! stateId = Some d ->
            (exists m0, acc !! id = Some m0 /\ m0 !! stateId = Some d)
            \/ exists result,
                 result ∈ prev
                 /\ PowerEntityStateResidencyResult.powerEntityId result = id
                 /\ d ∈ PowerEntityStateResidencyResult.stateResidencyData
                          result
                 /\ PowerEntityStateResidencyData.powerEntityStateId d
                    = stateId) as Hgen.
  { intros Hm Hd. destruct (Hgen ∅ m Hm Hd) as [(m0 & Hm0 & _)|]; [|assumption].
    rewrite lookup_empty in Hm0. discriminate. }
  clear m. induction prev as [|result prev IH]; cbn; intros acc m Hm Hd.
  - left. eauto.
  - destruct (IH _ _ Hm Hd) as [(m0 & Hm0 & Hx)|(r & Hr & ? & ? & ?)].
    + subst step. cbn beta in Hm0.
      destruct (prevStates_lookup_value _ _ _ _ _ _ _ Hm0 Hx)
        as [(m1 & Hm1 & Hs)|(-> & Hin & Hk)].
      * apply lookup_emplace in Hm1 as [Hm1|(_ & -> & _)]; [left; eauto|].
        rewrite lookup_empty in Hs. discriminate.
      * right. exists result. split; [apply list_elem_of_here|]. auto.
    + right. exists r. split; [apply list_elem_of_further, Hr|]. auto.
Qed.

Lemma prevStates_mono (id0 : Z)
    (states : list PowerEntityStateResidencyData.t) :
  forall acc id stateId,
    tableHas acc id stateId ->
    tableHas
      (foldl (fun m' stateResidency =>
                alter (emplace
                         (PowerEntityStateResidencyData.powerEntityStateId
                            stateResidency)
                         stateResidency) id0 m') acc states) id stateId.
Proof.
  induction states as [|sr states IH]; cbn; intros acc id stateId Hhas;
    [exact Hhas|].
  apply IH. destruct Hhas as (m & Hm & [x Hx]).
  destruct (decide (id0 = id)) as [<-|Hne].
  - eexists. rewrite lookup_alter_eq, Hm. cbn. split; [reflexivity|].
    erewrite emplace_keeps by exact Hx. eauto.
  - exists m. rewrite lookup_alter_ne by assumption. eauto.
Qed.

Lemma prevStates_adds (id0 : Z)
    (states : list PowerEntityStateResidencyData.t) :
  forall acc sr,
    is_Some (acc !! id0) -> sr ∈ states ->
    tableHas
      (foldl (fun m' stateResidency =>
                alter (emplace
                         (PowerEntityStateResidencyData.powerEntityStateId
                            stateResidency)
                         stateResidency) id0 m') acc states)
      id0 (PowerEntityStateResidencyData.powerEntityStateId sr).
Proof.
  induction states as [|sr0 states IH]; cbn; intros acc sr [m Hm] Hin;
    [inversion Hin|].
  apply elem_of_cons in Hin as [->|Hin].
  - apply prevStates_mono. eexists.
    rewrite lookup_alter_eq, Hm. cbn. split; [reflexivity|].
    apply emplace_is_Some.
  - apply IH; [|exact Hin]. rewrite lookup_alter_eq, Hm. cbn. eauto.
Qed.

(** Every record of the stored snapshot has its key in the table. *)
Lemma prevResultsMapOf_has (prev : list PowerEntityStateResidencyResult.t)
    (id stateId : Z) :
  stateInSnapshot prev id stateId ->
  tableHas (prevResultsMapOf prev) id stateId.
Proof.
  unfold prevResultsMapOf.
  set (step := fun (m : gmap Z (gmap Z PowerEntityStateResidencyData.t))
                   prevResult => _).
  assert (forall l acc, tableHas acc id stateId ->
                        tableHas (foldl step acc l) id stateId) as Hmono.
  { induction l as [|r l IH]; cbn; intros acc Hhas; [exact Hhas|].
    apply IH. subst step. cbn beta. apply prevStates_mono.
    destruct Hhas as (m & Hm & Hs). exists m.
    split; [apply emplace_keeps, Hm|exact Hs]. }
  intros (result & sr & Hin & <- & Hsr & <-).
  generalize (∅ : gmap Z (gmap Z PowerEntityStateResidencyData.t)).
  induction prev as [|r prev IH]; intros acc; [inversion Hin|].
  cbn. apply elem_of_cons in Hin as [<-|Hin]; [|apply IH, Hin].
  apply Hmono. subst step. cbn beta.
  apply prevStates_adds; [apply emplace_is_Some|exact Hsr].
Qed.

(** X13. In a completed delta-mode residency report, the row of a state
    whose entity id and state id have a record in the stored snapshot shows
    as deltas the three current metrics minus those of one stored record
    with that entity id and state id, each in 64 bits. *)
Theorem residency_deltas_against_stored_record this (w : W) s oss w' s' out :
  dumpStateResidency boot_clock_now this w s oss true = Some (w', s', out) ->
  exists f elapsed rowss,
    getPowerEntityStateResidencyData this w [] [] = Some f
    /\ out = oss ++ [residencyBanner; ElapsedTime elapsed;
                     ResidencyHeaderDelta]
                ++ concat rowss ++ [residencyEndBanner]
    /\ Forall2
         (fun result rows =>
            Forall2
              (fun now row =>
                 stateInSnapshot (prevResults s)
                   (PowerEntityStateResidencyResult.powerEntityId result)
                   (PowerEntityStateResidencyData.powerEntityStateId now) ->
                 exists stored old entityName stateName,
                   stored ∈ prevResults s
                   /\ PowerEntityStateResidencyResult.powerEntityId stored
                      = PowerEntityStateResidencyResult.powerEntityId result
                   /\ old ∈ PowerEntityStateResidencyResult.stateResidencyData
                              stored
                   /\ PowerEntityStateResidencyData.powerEntityStateId old
                      = PowerEntityStateResidencyData.powerEntityStateId now
                   /\ row = ResidencyRowDelta entityName stateName
                              (PowerEntityStateResidencyData.totalTimeInStateMs
                                 now)
                              (int64_wrap
                                 (PowerEntityStateResidencyData.totalTimeInStateMs
                                    now
                                  - PowerEntityStateResidencyData.totalTimeInStateMs
                                      old))
                              (PowerEntityStateResidencyData.totalStateEntryCount
                                 now)
                              (int64_wrap
                                 (PowerEntityStateResidencyData.totalStateEntryCount
                                    now
                                  - PowerEntityStateResidencyData.totalStateEntryCount
                                      old))
                              (PowerEntityStateResidencyData.lastEntryTimestampMs
                                 now)
                              (int64_wrap
                                 (PowerEntityStateResidencyData.lastEntryTimestampMs
                                    now
                                  - PowerEntityStateResidencyData.lastEntryTimestampMs
                                      old)))
              (PowerEntityStateResidencyResult.stateResidencyData result) rows)
         (aidl_return f) rowss.
Proof.
  unfold dumpStateResidency.
  destruct (getEntityStateMaps this) as [entityNames stateNames].
  destruct (getPowerEntityStateResidencyData this w [] []) as [f|];
    [|discriminate].
  cbn.
  destruct (boot_clock_now (world f)) as [w2 curTime].
  destruct (mapM _ (aidl_return f)) as [rowss|] eqn:Hrows; [|discriminate].
  cbn. intros [= <- <- <-]. exists f. do 2 eexists.
  split; [reflexivity|]. split; [by rewrite <- !app_assoc|].
  - apply mapM_Some in Hrows. eapply Forall2_impl; [exact Hrows|].
    intros result rows. unfold residencyRowsDelta.
    destruct (entityNames !! _) as [entityName|]; [|discriminate].
    cbn. intros Hrow. apply mapM_Some in Hrow.
    eapply Forall2_impl; [exact Hrow|].
    intros now row Hr Hstored.
    destruct (prevResultsMapOf_has _ _ _ Hstored) as (m & Hm & [old Hold]).
    destruct (prevResultsMapOf_lookup_value _ _ _ _ _ Hm Hold)
      as (stored & Hin & Hid & Hdata & Hsid).
    unfold residencyRowDelta in Hr.
    destruct (stateNameAt stateNames _ _) as [stateName|]; [|discriminate].
    cbn in Hr. unfold residencyDeltas in Hr. rewrite Hm, Hold in Hr.
    injection Hr as <-.
    exists stored, old, entityName, stateName. auto.
Qed.

(** *** The stream *)

(** X14. Each report only appends to the stream it is given: its outcome
    is that of the report on an empty stream, with the old stream in front.
    The text of [dump] is the state-residency report followed by the
    rail-energy report, the second run in the world and with the statics the
    first one left, and the status is OK whenever both complete. *)
Theorem reports_append_in_fixed_order this (w : W) s oss (delta : bool)
    (args : list string) :
  dumpRailEnergy boot_clock_now this w s oss delta
  = (fun r => (r.1, oss ++ r.2))
      <$> dumpRailEnergy boot_clock_now this w s [] delta
  /\ dumpStateResidency boot_clock_now this w s oss delta
     = (fun r => (r.1, oss ++ r.2))
         <$> dumpStateResidency boot_clock_now this w s [] delta
  /\ dump boot_clock_now this w s args
     = (r1 ← dumpStateResidency boot_clock_now this w s []
               (deltaRequested args);
        r2 ← dumpRailEnergy boot_clock_now this r1.1.1 r1.1.2 []
               (deltaRequested args);
        Some (r2.1.1, r2.1.2, r1.2 ++ r2.2, STATUS_OK)).
Proof.
  assert (forall w0 s0 oss0 d,
            dumpRailEnergy boot_clock_now this w0 s0 oss0 d
            = (fun r => (r.1, oss0 ++ r.2))
                <$> dumpRailEnergy boot_clock_now this w0 s0 [] d) as Hrail.
  { intros w0 s0 oss0 d. unfold dumpRailEnergy.
    destruct (getRailEnergyMaps this w0) as [w1 railNames].
    destruct (getEnergyData this w1 [] []) as [w2 [energyData st]].
    destruct d.
    - destruct (boot_clock_now w2) as [w3 curTime].
      destruct (mapM _ energyData); cbn; [|reflexivity].
      by rewrite <- !app_assoc.
    - destruct (mapM _ energyData); cbn; [|reflexivity].
      by rewrite <- !app_assoc. }
  split; [apply Hrail|]. split.
  - unfold dumpStateResidency.
    destruct (getEntityStateMaps this) as [entityNames stateNames].
    destruct (getPowerEntityStateResidencyData this w [] []) as [f|];
      [|reflexivity].
    cbn. destruct delta.
    + destruct (boot_clock_now (world f)) as [w2 curTime].
      destruct (mapM _ (aidl_return f)); cbn; [|reflexivity].
      by rewrite <- !app_assoc.
    + destruct (mapM _ (aidl_return f)); cbn; [|reflexivity].
      by rewrite <- !app_assoc.
  - unfold dump.
    destruct (dumpStateResidency boot_clock_now this w s []
                (deltaRequested args)) as [[[w1 s1] oss1]|]; [|reflexivity].
    cbn -[dumpRailEnergy]. rewrite Hrail.
    destruct (dumpRailEnergy boot_clock_now this w1 s1 []
                (deltaRequested args)) as [[[w2 s2] oss2]|]; reflexivity.
Qed.

(** *** The name tables of the residency report *)

Lemma getEntityStateMaps_fst (l : list PowerEntityInfo.t) :
  forall (E : gmap Z string) (S : gmap Z (gmap Z string)),
    (foldl (fun '(entityNames, stateNames) info =>
              let id := PowerEntityInfo.powerEntityId info in
              let fill (entityStateNames : gmap Z string) :=
                foldl (fun names state =>
                         emplace (PowerEntityStateInfo.powerEntityStateId state)
                           (PowerEntityStateInfo.powerEntityStateName state)
                           names)
                      entityStateNames (PowerEntityInfo.states info) in
              (emplace id (PowerEntityInfo.powerEntityName info) entityNames,
               alter fill id (emplace id ∅ stateNames)))
           (E, S) l).1
    = foldl (fun m info =>
               emplace (PowerEntityInfo.powerEntityId info)
                 (PowerEntityInfo.powerEntityName info) m) E l.
Proof. induction l as [|info l IH]; intros E S; cbn; [reflexivity|apply IH]. Qed.

Lemma getEntityStateMaps_snd_other (l : list PowerEntityInfo.t) :
  forall (E : gmap Z string) (S : gmap Z (gmap Z string)) (k : Z),
    k ∉ PowerEntityInfo.powerEntityId <$> l ->
    (foldl (fun '(entityNames, stateNames) info =>
              let id := PowerEntityInfo.powerEntityId info in
              let fill (entityStateNames : gmap Z string) :=
                foldl (fun names state =>
                         emplace (PowerEntityStateInfo.powerEntityStateId state)
                           (PowerEntityStateInfo.powerEntityStateName state)
                           names)
                      entityStateNames (PowerEntityInfo.states info) in
              (emplace id (PowerEntityInfo.powerEntityName info) entityNames,
               alter fill id (emplace id ∅ stateNames)))
           (E, S) l).2 !! k
    = S !! k.
Proof.
  induction l as [|info l IH]; intros E S k Hk; cbn; [reflexivity|].
  cbn in Hk. apply not_elem_of_cons in Hk as [Hne Hk].
  rewrite IH by assumption.
  rewrite lookup_alter_ne by congruence.
  apply lookup_emplace_ne. congruence.
Qed.

Lemma getEntityStateMaps_snd (l : list PowerEntityInfo.t) :
  forall (E : gmap Z string) (S : gmap Z (gmap Z string)) info,
    NoDup (PowerEntityInfo.powerEntityId <$> l) ->
    (forall info', info' ∈ l ->
                   S !! PowerEntityInfo.powerEntityId info' = None) ->
    info ∈ l ->
    (foldl (fun '(entityNames, stateNames) info =>
              let id := PowerEntityInfo.powerEntityId info in
              let fill (entityStateNames : gmap Z string) :=
                foldl (fun names state =>
                         emplace (PowerEntityStateInfo.powerEntityStateId state)
                           (PowerEntityStateInfo.powerEntityStateName state)
                           names)
                      entityStateNames (PowerEntityInfo.states info) in
              (emplace id (PowerEntityInfo.powerEntityName info) entityNames,
               alter fill id (emplace id ∅ stateNames)))
           (E, S) l).2 !! PowerEntityInfo.powerEntityId info
    = Some (foldl (fun names state =>
                     emplace (PowerEntityStateInfo.powerEntityStateId state)
                       (PowerEntityStateInfo.powerEntityStateName state) names)
                  ∅ (PowerEntityInfo.states info)).
Proof.
  induction l as [|info0 l IH]; intros E S info Hnd Hfresh Hin;
    [inversion Hin|].
  cbn in Hnd. apply NoDup_cons in Hnd as [Hnotin Hnd].
  cbn [foldl]. apply elem_of_cons in Hin as [->|Hin].
  - rewrite getEntityStateMaps_snd_other by assumption.
    rewrite lookup_alter_eq.
    rewrite lookup_emplace_fresh by apply Hfresh, list_elem_of_here.
    reflexivity.
  - apply IH; [assumption| |assumption].
    intros info' Hin'.
    assert (PowerEntityInfo.powerEntityId info0
            <> PowerEntityInfo.powerEntityId info') as Hne.
    { intros E'. apply Hnotin. rewrite E'. apply list_elem_of_fmap. eauto. }
    rewrite lookup_alter_ne by assumption.
    rewrite lookup_emplace_ne by assumption.
    apply Hfresh, list_elem_of_further, Hin'.
Qed.

(** In an object built by registrations that fits the 32-bit ids, the id
    stored in a row is the row's index. *)
Lemma registered_id_is_index this :
  registered this ->
  Z.of_nat (length (mPowerEntityInfos this)) <= 2 ^ 31 ->
  forall i info,
    mPowerEntityInfos this !! i = Some info ->
    PowerEntityInfo.powerEntityId info = Z.of_nat i.
Proof.
  induction 1 as [|this q Hreg IH|this p Hreg IH]; intros Hfit i info Hi.
  - discriminate.
  - eauto.
  - unfold addStateResidencyDataProvider in Hi, Hfit.
    set (id0 := int32_wrap (Z.of_nat (length (mPowerEntityInfos this))))
      in *.
    destruct (addEntities_spec p (IStateResidencyDataProvider.getInfo p)
                id0 this) as (new & Ei & _ & _ & Hlen & _).
    rewrite Ei, length_app in Hfit.
    destruct (decide (i < length (mPowerEntityInfos this))%nat) as [Hlt|Hge].
    + rewrite Ei, lookup_app_l in Hi by assumption. apply IH; [lia|exact Hi].
    + assert (i < length (mPowerEntityInfos this) + length new)%nat as Hi_lt.
      { apply lookup_lt_Some in Hi. rewrite Ei, length_app in Hi. lia. }
      destruct (lookup_lt_is_Some_2 (IStateResidencyDataProvider.getInfo p)
                  (i - length (mPowerEntityInfos this))) as [[n st] Hk];
        [lia|].
      destruct (addEntities_rows p _ id0 this _ n st Hk)
        as (id' & Hi' & _ & Hid).
      replace (length (mPowerEntityInfos this)
               + (i - length (mPowerEntityInfos this)))%nat with i
        in Hi' by lia.
      rewrite Hi' in Hi. injection Hi as <-. cbn.
      subst id0. rewrite int32_wrap_id in Hid by (unfold is_int32; lia).
      rewrite Hid; lia.
Qed.

Lemma id_is_index_NoDup (l : list PowerEntityInfo.t) :
  (forall i info, l !! i = Some info ->
                  PowerEntityInfo.powerEntityId info = Z.of_nat i) ->
  NoDup (PowerEntityInfo.powerEntityId <$> l).
Proof.
  intros Hidx. apply NoDup_alt. intros i j x Hi Hj.
  rewrite list_lookup_fmap in Hi, Hj.
  destruct (l !! i) as [a|] eqn:Ha; [|discriminate].
  destruct (l !! j) as [b|] eqn:Hb; [|discriminate].
  cbn in Hi, Hj. injection Hi as Hi. injection Hj as Hj.
  rewrite (Hidx _ _ Ha) in Hi. rewrite (Hidx _ _ Hb) in Hj. lia.
Qed.

(** The two name tables, row by row. *)
Lemma getEntityStateMaps_row this i info :
  registered this ->
  Z.of_nat (length (mPowerEntityInfos this)) <= 2 ^ 31 ->
  mPowerEntityInfos this !! i = Some info ->
  (getEntityStateMaps this).1 !! Z.of_nat i
  = Some (PowerEntityInfo.powerEntityName info)
  /\ exists names,
       (getEntityStateMaps this).2 !! Z.of_nat i = Some names
       /\ forall stateId,
            names !! stateId
            = PowerEntityStateInfo.powerEntityStateName
                <$> head (filter
                            (fun state =>
                               PowerEntityStateInfo.powerEntityStateId state
                               = stateId)
                            (PowerEntityInfo.states info)).
Proof.
  intros Hreg Hfit Hi.
  pose proof (registered_id_is_index this Hreg Hfit) as Hidx.
  pose proof (id_is_index_NoDup _ Hidx) as Hnd.
  pose proof (list_elem_of_lookup_2 _ _ _ Hi) as Hin.
  rewrite <- (Hidx i info Hi).
  unfold getEntityStateMaps, getPowerEntityInfo. cbn [fst]. split.
  - rewrite getEntityStateMaps_fst.
    rewrite (foldl_emplace_lookup PowerEntityInfo.powerEntityId
               PowerEntityInfo.powerEntityName).
    rewrite lookup_empty.
    rewrite (head_filter_NoDup PowerEntityInfo.powerEntityId _ info Hnd Hin).
    reflexivity.
  - eexists. split.
    + apply getEntityStateMaps_snd; [exact Hnd| |exact Hin].
      intros. apply lookup_empty.
    + intros stateId.
      rewrite (foldl_emplace_lookup PowerEntityStateInfo.powerEntityStateId
                 PowerEntityStateInfo.powerEntityStateName).
      rewrite lookup_empty. reflexivity.
Qed.

(** X15. In an object built by registrations that fits the 32-bit ids, the
    name tables of the residency report answer every registered id i with
    the name of row i, and a state id of that entity with the name of the
    first state declared with that id (no answer for an undeclared one). *)
Theorem name_tables_follow_registry this i info :
  registered this ->
  Z.of_nat (length (mPowerEntityInfos this)) <= 2 ^ 31 ->
  mPowerEntityInfos this !! i = Some info ->
  (getEntityStateMaps this).1 !! Z.of_nat i
  = Some (PowerEntityInfo.powerEntityName info)
  /\ forall stateId,
       stateNameAt (getEntityStateMaps this).2 (Z.of_nat i) stateId
       = PowerEntityStateInfo.powerEntityStateName
           <$> head (filter
                       (fun state =>
                          PowerEntityStateInfo.powerEntityStateId state
                          = stateId)
                       (PowerEntityInfo.states info)).
Proof.
  intros Hreg Hfit Hi.
  destruct (getEntityStateMaps_row this i info Hreg Hfit Hi)
    as (Hname & names & Hnames & Hstate).
  split; [exact Hname|]. intros stateId.
  unfold stateNameAt. rewrite Hnames. cbn. apply Hstate.
Qed.

(** *** When the reports complete *)

Lemma head_filter_is_Some {A K : Type} `{EqDecision K} (key : A -> K)
    (l : list A) (k : K) :
  is_Some (head (filter (fun x => key x = k) l)) <-> k ∈ key <$> l.
Proof.
  induction l as [|x l IH].
  - cbn. split; [intros [? ?]; discriminate|intros Hin; inversion Hin].
  - rewrite filter_cons, fmap_cons, elem_of_cons.
    destruct (decide (key x = k)) as [<-|Hne]; cbn.
    + split; eauto.
    + rewrite IH. split; [auto|]. intros [E|Hin]; [congruence|exact Hin].
Qed.

(** X16. On an object built by registrations that fits the 32-bit ids, the
    residency report completes, in either mode, whenever every state id the
    providers report for an entity is one of the state ids declared for that
    entity at registration. *)
Theorem residency_report_completes this (w : W) s oss (delta : bool) f :
  registered this ->
  Z.of_nat (length (mPowerEntityInfos this)) <= 2 ^ 31 ->
  getPowerEntityStateResidencyData this w [] [] = Some f ->
  (forall result info stateResidency,
     result ∈ aidl_return f ->
     mPowerEntityInfos this
       !! Z.to_nat (PowerEntityStateResidencyResult.powerEntityId result)
     = Some info ->
     stateResidency
       ∈ PowerEntityStateResidencyResult.stateResidencyData result ->
     PowerEntityStateResidencyData.powerEntityStateId stateResidency
       ∈ PowerEntityStateInfo.powerEntityStateId
           <$> PowerEntityInfo.states info) ->
  is_Some (dumpStateResidency boot_clock_now this w s oss delta).
Proof.
  intros Hreg Hfit Hf Hdeclared.
  assert (forall result,
            result ∈ aidl_return f ->
            exists entityName,
              (getEntityStateMaps this).1
                !! PowerEntityStateResidencyResult.powerEntityId result
              = Some entityName
              /\ forall stateResidency,
                   stateResidency
                     ∈ PowerEntityStateResidencyResult.stateResidencyData
                         result ->
                   is_Some
                     (stateNameAt (getEntityStateMaps this).2
                        (PowerEntityStateResidencyResult.powerEntityId result)
                        (PowerEntityStateResidencyData.powerEntityStateId
                           stateResidency))) as Hnames.
  { intros result Hin.
    rewrite getPowerEntityStateResidencyData_loop in Hf.
    destruct (visitAll_results this _ _ _ Hf) as (new & E & _ & Hvalid & _).
    cbn in E. subst new. rewrite Forall_forall in Hvalid.
    pose proof (Hvalid result Hin) as Hv.
    destruct (valid_info this _ Hv) as [info Hi].
    apply invalidId_false in Hv.
    destruct (getEntityStateMaps_row this _ info Hreg Hfit Hi)
      as (Hname & names & Hn & Hstate).
    rewrite Z2Nat.id in Hname, Hn by lia.
    exists (PowerEntityInfo.powerEntityName info). split; [exact Hname|].
    intros sr Hsr. unfold stateNameAt. rewrite Hn. cbn. rewrite Hstate.
    apply fmap_is_Some, head_filter_is_Some. eauto. }
  unfold dumpStateResidency.
  destruct (getEntityStateMaps this) as [entityNames stateNames].
  cbn [fst snd] in Hnames. rewrite Hf. cbn.
  destruct delta.
  - destruct (boot_clock_now (world f)) as [w2 curTime].
    assert (is_Some (mapM (residencyRowsDelta entityNames stateNames
                             (prevResultsMapOf (prevResults s)))
                       (aidl_return f))) as [rows ->]; [|cbn; eauto].
    apply mapM_is_Some, Forall_forall. intros result Hin. cbn.
    destruct (Hnames result Hin) as (entityName & Hname & Hstates).
    unfold residencyRowsDelta. rewrite Hname. cbn.
    apply mapM_is_Some, Forall_forall. intros sr Hsr. cbn.
    unfold residencyRowDelta.
    destruct (Hstates sr Hsr) as [stateName ->]. cbn.
    destruct (residencyDeltas _ sr) as [[? ?] ?]. eauto.
  - assert (is_Some (mapM (residencyRows entityNames stateNames)
                       (aidl_return f))) as [rows ->]; [|cbn; eauto].
    apply mapM_is_Some, Forall_forall. intros result Hin. cbn.
    destruct (Hnames result Hin) as (entityName & Hname & Hstates).
    unfold residencyRows.
    apply mapM_is_Some, Forall_forall. intros sr Hsr. cbn.
    unfold residencyRow. rewrite Hname. cbn.
    destruct (Hstates sr Hsr) as [stateName ->]. cbn. eauto.
Qed.

(** X17. The rail report completes, in either mode, exactly when the rail
    index of every reading returned by [getEnergyData] is among the rail
    indices listed by [getRailInfo]; otherwise the lookup of the missing
    name ends it. *)
Theorem rail_report_completes_iff_rails_listed this (w : W) s oss
    (delta : bool) :
  is_Some (dumpRailEnergy boot_clock_now this w s oss delta)
  <-> forall data,
        data ∈ (railEnergyNow this w).2 ->
        EnergyData.railIndex data
          ∈ RailInfo.railIndex <$> (getRailInfo this w []).2.1.
Proof.
  rewrite dumpRailEnergy_completes, Forall_forall.
  apply forall_proper. intros data.
  apply forall_proper. intros _.
  unfold railNamesNow, getRailEnergyMaps. cbn [snd].
  rewrite (foldl_emplace_lookup RailInfo.railIndex
             (fun info => (RailInfo.subsysName info, RailInfo.railName info))).
  rewrite lookup_empty, fmap_is_Some. apply head_filter_is_Some.
Qed.

(** *** The reports outside delta mode *)

Lemma Forall2_with_Forall {A B : Type} (P : A -> Prop) (R : A -> B -> Prop)
    (l : list A) (k : list B) :
  Forall P l -> Forall2 R l k -> Forall2 (fun x y => P x /\ R x y) l k.
Proof.
  intros HP HR. induction HR; inversion HP; subst; constructor; auto.
Qed.

(** X21. A completed rail report outside delta mode leaves the world as
    [getEnergyData] left it and the statics untouched, and has one row per
    reading, in order, carrying the names of the first [RailInfo] listed
    for its rail index and the reading cast to [float] and divided by
    [1000.0]. *)
Theorem plain_rail_report_rows this (w : W) s oss w' s' out :
  dumpRailEnergy boot_clock_now this w s oss false = Some (w', s', out) ->
  w' = (railEnergyNow this w).1 /\ s' = s
  /\ exists rows,
       out = oss ++ [railBanner; RailHeader] ++ rows ++ [railEndBanner]
       /\ Forall2
            (fun data row =>
               exists info,
                 head (filter (fun info => RailInfo.railIndex info
                                           = EnergyData.railIndex data)
                         (getRailInfo this w []).2.1) = Some info
                 /\ row = RailRow (RailInfo.subsysName info)
                            (RailInfo.railName info)
                            (toMilliwattSeconds (EnergyData.energyUWs data)))
            (railEnergyNow this w).2 rows.
Proof.
  unfold dumpRailEnergy, railEnergyNow.
  pose proof (fun k =>
                foldl_emplace_lookup RailInfo.railIndex
                  (fun info => (RailInfo.subsysName info,
                                RailInfo.railName info))
                  (getRailInfo this w []).2.1 ∅ k) as Hnames.
  unfold getRailEnergyMaps in *. cbn [fst snd] in *.
  set (railNames := foldl _ ∅ (getRailInfo this w []).2.1) in *.
  destruct (getEnergyData this (getRailInfo this w []).1 [] [])
    as [w2 [energyData st]].
  cbn [fst snd].
  destruct (mapM _ energyData) as [rows|] eqn:Hrows; [|discriminate].
  cbn. intros [= <- <- <-]. split; [reflexivity|]. split; [reflexivity|].
  exists rows. split; [by rewrite <- !app_assoc|].
  apply mapM_Some in Hrows. eapply Forall2_impl; [exact Hrows|].
  intros data row. unfold railRow. rewrite Hnames, lookup_empty.
  destruct (head _) as [info|]; [|discriminate].
  cbn. intros [= <-]. eauto.
Qed.

(** X22. On an object built by registrations that fits the 32-bit ids, a
    completed residency report outside delta mode leaves the statics
    untouched and has, for every result of the query and every state in it,
    in order, one row carrying the three metrics, the name registered for
    the result's entity id and the name of the first state declared with the
    state's id. *)
Theorem plain_residency_report_rows this (w : W) s oss w' s' out :
  registered this ->
  Z.of_nat (length (mPowerEntityInfos this)) <= 2 ^ 31 ->
  dumpStateResidency boot_clock_now this w s oss false = Some (w', s', out) ->
  exists f rowss,
    getPowerEntityStateResidencyData this w [] [] = Some f
    /\ w' = world f /\ s' = s
    /\ out = oss ++ [residencyBanner; ResidencyHeader]
                ++ concat rowss ++ [residencyEndBanner]
    /\ Forall2
         (fun result rows =>
            exists info,
              mPowerEntityInfos this
                !! Z.to_nat
                     (PowerEntityStateResidencyResult.powerEntityId result)
              = Some info
              /\ Forall2
                   (fun now row =>
                      exists state,
                        head (filter
                                (fun state =>
                                   PowerEntityStateInfo.powerEntityStateId
                                     state
                                   = PowerEntityStateResidencyData.powerEntityStateId
                                       now)
                                (PowerEntityInfo.states info)) = Some state
                        /\ row = ResidencyRow
                                   (PowerEntityInfo.powerEntityName info)
                                   (PowerEntityStateInfo.powerEntityStateName
                                      state)
                                   (PowerEntityStateResidencyData.totalTimeInStateMs
                                      now)
                                   (PowerEntityStateResidencyData.totalStateEntryCount
                                      now)
                                   (PowerEntityStateResidencyData.lastEntryTimestampMs
                                      now))
                   (PowerEntityStateResidencyResult.stateResidencyData result)
                   rows)
         (aidl_return f) rowss.
Proof.
  intros Hreg Hfit. unfold dumpStateResidency.
  pose proof (getEntityStateMaps_row this) as Hrow.
  destruct (getEntityStateMaps this) as [entityNames stateNames].
  cbn [fst snd] in Hrow.
  destruct (getPowerEntityStateResidencyData this w [] []) as [f|] eqn:Hf;
    [|discriminate].
  cbn.
  destruct (mapM _ (aidl_return f)) as [rowss|] eqn:Hrows; [|discriminate].
  cbn. intros [= <- <- <-]. exists f, rowss.
  split; [reflexivity|]. split; [reflexivity|]. split; [reflexivity|].
  split; [by rewrite <- !app_assoc|].
  rewrite getPowerEntityStateResidencyData_loop in Hf.
  destruct (visitAll_results this _ _ _ Hf) as (new & E & _ & Hvalid & _).
  cbn in E. subst new.
  apply mapM_Some in Hrows.
  eapply Forall2_impl; [exact (Forall2_with_Forall _ _ _ _ Hvalid Hrows)|].
  cbn. intros result rows [Hv Hrs].
  destruct (valid_info this _ Hv) as [info Hi].
  apply invalidId_false in Hv.
  destruct (Hrow _ info Hreg Hfit Hi) as (Hname & names & Hn & Hstate).
  rewrite Z2Nat.id in Hname, Hn by lia.
  exists info. split; [exact Hi|].
  unfold residencyRows in Hrs. apply mapM_Some in Hrs.
  eapply Forall2_impl; [exact Hrs|].
  intros now row. unfold residencyRow, stateNameAt.
  rewrite Hname, Hn. cbn. rewrite Hstate.
  destruct (head _) as [state|]; [|discriminate].
  cbn. intros [= <-]. eauto.
Qed.

End DumpRows.

(** ** Runs of the sample configuration *)

Lemma sample_registered : registered sample.
Proof. repeat constructor. Qed.

Lemma sample_aligned : aligned sample.
Proof. reflexivity. Qed.

(** [cpuProvider] supplies both of its entities and removes nothing;
    [idleProvider] leaves the map as it is. *)
Lemma sample_supplies_cpu (id : Z) : 0 <= id < 2 -> supplies sample id.
Proof.
  intros Hid info p.
  assert (id = 0 \/ id = 1) as [-> | ->] by lia; cbn;
    intros [= <-] [= <-] w m; cbn.
  - rewrite lookup_insert_eq. eauto.
  - rewrite lookup_insert_ne by discriminate.
    rewrite lookup_insert_eq. eauto.
Qed.

Lemma sample_keeps (name : string) : keeps sample name.
Proof.
  intros p Hp w m [d Hd].
  change (p ∈ [cpuProvider; cpuProvider; idleProvider]) in Hp.
  assert (p = cpuProvider \/ p = idleProvider) as [-> | ->].
  { repeat (apply elem_of_cons in Hp as [->|Hp]; [auto|]). inversion Hp. }
  - cbn. rewrite lookup_insert.
    destruct (decide ("CPU-big"%string = name)); [eauto|].
    rewrite lookup_insert.
    destruct (decide ("CPU-little"%string = name)); eauto.
  - cbn. eauto.
Qed.

Lemma sample_suppliesName_cpu : suppliesName sample "CPU-big".
Proof.
  intros [|[|[|i]]] info p; cbn; intros [= <-]; try discriminate.
  intros _ [= <-] w m. cbn. rewrite lookup_insert_eq. eauto.
Qed.

(** The query on the sample: ids 0 and 1 get results from one provider
    call, id 2 fails, id 7 is out of range. *)
Example sample_query_mixed :
  (fun f => (world f, aidl_return f, status f, fetches f))
    <$> getPowerEntityStateResidencyData sample 0%nat [0; 7; 2; 1] []
  = Some (2%nat,
          [PowerEntityStateResidencyResult.mk 0 (cpuResidency 0);
           PowerEntityStateResidencyResult.mk 1 (cpuResidency 0)],
          STATUS_BAD_VALUE,
          [(0, "CPU-big"%string); (2, "Modem"%string)]).
Proof. vm_compute. reflexivity. Qed.

Example sample_query_failed :
  (fun f => (aidl_return f, status f))
    <$> getPowerEntityStateResidencyData sample 0%nat [2] []
  = Some ([], STATUS_FAILED_TRANSACTION).
Proof. vm_compute. reflexivity. Qed.

(** A second delta dump of rail energy, one provider call after a first one
    that stored 1500 for rail 0: the reading is 1501, the delta 1. *)
Example sample_rail_delta :
  dumpRailEnergy sampleClock sample 1%nat
    (mkStatics [EnergyData.mk 0 1500] (Some 0) [] None) [] true
  = Some (1%nat,
          mkStatics [EnergyData.mk 0 1501; EnergyData.mk 1 40]
            (Some 1000000000) [] None,
          [railBanner; ElapsedTime 1000; RailHeaderDelta;
           RailRowDelta "CPU" "VDD_CPU"
             (toMilliwattSeconds 1501) (toMilliwattSeconds 1);
           RailRowDelta "MEM" "VDD_MEM"
             (toMilliwattSeconds 40) double_zero;
           railEndBanner]).
Proof. vm_compute. reflexivity. Qed.

Lemma empty_ids_same_as_all_ids_sample :
  (0 < length (mPowerEntityInfos sample))%nat
  /\ Z.of_nat (length (mPowerEntityInfos sample)) <= 2 ^ 31
  /\ getPowerEntityStateResidencyData sample 0%nat [] []
     = getPowerEntityStateResidencyData sample 0%nat [0; 1; 2] [].
Proof.
  assert (0 < length (mPowerEntityInfos sample))%nat as Hpos
    by (vm_compute; lia).
  assert (Z.of_nat (length (mPowerEntityInfos sample)) <= 2 ^ 31) as Hfit
    by (vm_compute; discriminate).
  split; [exact Hpos|]. split; [exact Hfit|].
  exact (empty_ids_same_as_all_ids sample 0%nat [] Hpos Hfit).
Defined.

Lemma invalid_id_is_skipped_not_fatal_sample :
  aligned sample
  /\ (exists bad, bad ∈ [0; 7; 2; 1] /\ invalidId sample bad = true)
  /\ exists f new,
       getPowerEntityStateResidencyData sample 0%nat [0; 7; 2; 1] [] = Some f
       /\ status f = STATUS_BAD_VALUE
       /\ aidl_return f = new
       /\ (exists res,
             res ∈ new
             /\ PowerEntityStateResidencyResult.powerEntityId res = 0)
       /\ (exists res,
             res ∈ new
             /\ PowerEntityStateResidencyResult.powerEntityId res = 1).
Proof.
  assert (exists bad, bad ∈ [0; 7; 2; 1] /\ invalidId sample bad = true)
    as Hbad.
  { exists 7. split; [|reflexivity].
    apply list_elem_of_further, list_elem_of_here. }
  split; [reflexivity|]. split; [exact Hbad|].
  destruct (invalid_id_is_skipped_not_fatal sample 0%nat [0; 7; 2; 1] []
              sample_aligned Hbad) as (f & new & Hf & Hst & Hret & Hnew).
  exists f, new. repeat split; try assumption.
  - apply (Hnew 0); [apply list_elem_of_here|reflexivity|].
    apply sample_supplies_cpu. lia.
  - apply (Hnew 1); [|reflexivity|apply sample_supplies_cpu; lia].
    do 3 apply list_elem_of_further. apply list_elem_of_here.
Defined.

Lemma bad_value_outranks_failed_transaction_sample :
  aligned sample
  /\ (exists f,
        getPowerEntityStateResidencyData sample 0%nat [2; 7] [] = Some f
        /\ status f = STATUS_BAD_VALUE)
  /\ (exists f,
        getPowerEntityStateResidencyData sample 0%nat [7; 2] [] = Some f
        /\ status f = STATUS_BAD_VALUE)
  /\ failureOccurs sample [0; 2] (entry 0%nat [])
  /\ (exists f,
        getPowerEntityStateResidencyData sample 0%nat [0; 2] [] = Some f
        /\ status f = STATUS_FAILED_TRANSACTION).
Proof.
  assert (failureOccurs sample [0; 2] (entry 0%nat [])) as Hfail.
  { exists [0], 2, []. eexists. split; [reflexivity|].
    split; [vm_compute; reflexivity|].
    split; [reflexivity|]. do 2 eexists.
    split; [reflexivity|]. split; [vm_compute; reflexivity|].
    vm_compute. reflexivity. }
  split; [reflexivity|]. split; [|split; [|split; [exact Hfail|]]].
  - destruct (bad_value_outranks_failed_transaction sample 0%nat [2; 7] []
                sample_aligned) as (f & Hf & Hbad & _).
    exists f. split; [exact Hf|]. apply Hbad.
    exists 7. split; [|reflexivity].
    apply list_elem_of_further, list_elem_of_here.
  - destruct (bad_value_outranks_failed_transaction sample 0%nat [7; 2] []
                sample_aligned) as (f & Hf & Hbad & _).
    exists f. split; [exact Hf|]. apply Hbad.
    exists 7. split; [apply list_elem_of_here|reflexivity].
  - destruct (bad_value_outranks_failed_transaction sample 0%nat [0; 2] []
                sample_aligned) as (f & Hf & _ & Hfailed & _).
    exists f. split; [exact Hf|]. apply Hfailed; [|exact Hfail].
    intros id Hin. change (id ∈ [0; 2]) in Hin.
    repeat (apply elem_of_cons in Hin as [->|Hin]; [reflexivity|]).
    inversion Hin.
Defined.

(** C4 as stated fails: the only entity of [idleOnly] never gets data, and
    the call that asks for it twice calls its provider twice. *)
Lemma idle_entity_fetched_twice :
  exists f,
    getPowerEntityStateResidencyData idleOnly 0%nat [0; 0] [] = Some f
    /\ fetches f = [(0, "Modem"%string); (0, "Modem"%string)]
    /\ world f = 2%nat
    /\ ~ (fetchCount "Modem" f <= 1)%nat.
Proof.
  eexists. split; [vm_compute; reflexivity|].
  split; [reflexivity|]. split; [reflexivity|].
  vm_compute. lia.
Qed.

Lemma getResults_once_per_supplied_name_sample :
  aligned sample /\ keeps sample "CPU-big" /\ suppliesName sample "CPU-big"
  /\ exists f,
       getPowerEntityStateResidencyData sample 0%nat [0; 0; 1; 0] [] = Some f
       /\ (fetchCount "CPU-big" f <= 1)%nat.
Proof.
  split; [reflexivity|]. split; [apply sample_keeps|].
  split; [apply sample_suppliesName_cpu|].
  destruct (getResults_once_per_supplied_name sample 0%nat [0; 0; 1; 0] []
              "CPU-big" sample_aligned (sample_keeps _)
              sample_suppliesName_cpu) as (f & Hf & Hcount & _).
  exists f. split; assumption.
Defined.

Lemma no_energy_provider_ok_and_empty_fresh :
  mRailEnergyDataProvider (init nat) = None
  /\ getEnergyData (init nat) 0%nat [] [] = (0%nat, ([], STATUS_OK))
  /\ getRailInfo (init nat) 0%nat [] = (0%nat, ([], STATUS_OK)).
Proof.
  split; [reflexivity|].
  destruct (no_energy_provider_ok_and_empty (init nat) 0%nat [] eq_refl)
    as (He & Hr & _).
  split; assumption.
Defined.

Lemma registered_ids_sequential_sample :
  registered sample
  /\ Z.of_nat (length (mPowerEntityInfos sample)) <= 2 ^ 31
  /\ PowerEntityInfo.powerEntityId <$> mPowerEntityInfos sample = [0; 1; 2].
Proof.
  assert (Z.of_nat (length (mPowerEntityInfos sample)) <= 2 ^ 31) as Hfit
    by (vm_compute; discriminate).
  split; [exact sample_registered|]. split; [exact Hfit|].
  exact (proj1 (registered_ids_sequential sample sample_registered Hfit)).
Defined.

Lemma tables_aligned_lookup_in_bounds_sample :
  aligned sample
  /\ is_Some (mStateResidencyDataProviders sample !! Z.to_nat 2)
  /\ is_Some (getPowerEntityStateResidencyData sample 0%nat [2; 5; 0] []).
Proof.
  split; [reflexivity|].
  destruct (tables_aligned_lookup_in_bounds sample sample_aligned)
    as (_ & _ & _ & Hlookup & Htotal).
  split; [apply Hlookup; vm_compute; split; [discriminate|reflexivity]|].
  apply Htotal.
Defined.

Lemma empty_ids_on_empty_registry_fresh :
  mPowerEntityInfos (init nat) = []
  /\ exists f,
       getPowerEntityStateResidencyData (init nat) 5%nat [] [] = Some f
       /\ status f = STATUS_OK /\ aidl_return f = []
       /\ fetches f = [] /\ world f = 5%nat.
Proof.
  split; [reflexivity|].
  exact (empty_ids_on_empty_registry (init nat) 5%nat eq_refl).
Defined.

Lemma delta_zero_without_previous_record_first_dump :
  (exists w' s' out,
     dumpRailEnergy sampleClock sample 3%nat freshStatics [] true
     = Some (w', s', out)
     /\ exists elapsed rows,
          out = [railBanner; ElapsedTime elapsed; RailHeaderDelta]
                  ++ rows ++ [railEndBanner]
          /\ Forall deltasZero (ElapsedTime elapsed :: rows))
  /\ (exists w' s' out,
        dumpStateResidency sampleClock sample 3%nat freshStatics [] true
        = Some (w', s', out)
        /\ exists elapsed rowss,
             out = [residencyBanner; ElapsedTime elapsed; ResidencyHeaderDelta]
                     ++ concat rowss ++ [residencyEndBanner]
             /\ Forall deltasZero (ElapsedTime elapsed :: concat rowss)).
Proof.
  pose proof (delta_zero_without_previous_record sampleClock sample 3%nat
                freshStatics []) as [Hrail Hres].
  split.
  - destruct (dumpRailEnergy sampleClock sample 3%nat freshStatics [] true)
      as [[[w' s'] out]|] eqn:E; [|vm_compute in E; discriminate E].
    exists w', s', out. split; [reflexivity|].
    destruct (Hrail w' s' out eq_refl) as (elapsed & rows & Hout & _ & Hfirst).
    exists elapsed, rows. split; [exact Hout|]. apply Hfirst; reflexivity.
  - destruct (dumpStateResidency sampleClock sample 3%nat freshStatics [] true)
      as [[[w' s'] out]|] eqn:E; [|vm_compute in E; discriminate E].
    exists w', s', out. split; [reflexivity|].
    destruct (Hres w' s' out eq_refl)
      as (f & elapsed & rowss & _ & Hout & _ & Hfirst).
    exists elapsed, rowss. split; [exact Hout|]. apply Hfirst; reflexivity.
Defined.


(** *** Runs for the further properties *)

Ltac list_cases H :=
  repeat (apply elem_of_cons in H as [->|H]); try (by inversion H).

Lemma filling_registered : registered filling.
Proof. repeat constructor. Qed.

Lemma filling_providers p :
  p ∈ mStateResidencyDataProviders filling -> fillsAll p /\ neverRemoves p.
Proof.
  intros Hp. change (p ∈ [cpuProvider; cpuProvider; gpuProvider]) in Hp.
  list_cases Hp.
  - split.
    + intros w m name Hin. cbn in Hin. list_cases Hin; cbn.
      * rewrite lookup_insert_eq. eauto.
      * rewrite lookup_insert_ne by discriminate.
        rewrite lookup_insert_eq. eauto.
    + intros w m name [d Hd]. cbn. rewrite lookup_insert.
      destruct (decide ("CPU-big"%string = name)); [eauto|].
      rewrite lookup_insert.
      destruct (decide ("CPU-little"%string = name)); eauto.
  - split.
    + intros w m name Hin. cbn in Hin. list_cases Hin; cbn.
      * rewrite lookup_insert_eq. eauto.
      * rewrite lookup_insert_ne by discriminate.
        rewrite lookup_insert_eq. eauto.
    + intros w m name [d Hd]. cbn. rewrite lookup_insert.
      destruct (decide ("CPU-big"%string = name)); [eauto|].
      rewrite lookup_insert.
      destruct (decide ("CPU-little"%string = name)); eauto.
  - split.
    + intros w m name Hin. cbn in Hin. list_cases Hin. cbn.
      rewrite lookup_insert_eq. eauto.
    + intros w m name [d Hd]. cbn. rewrite lookup_insert.
      destruct (decide ("GPU"%string = name)); eauto.
Qed.

Lemma filling_supplies (id : Z) : 0 <= id < 3 -> supplies filling id.
Proof.
  intros Hid info p.
  assert (id = 0 \/ id = 1 \/ id = 2) as [-> | [-> | ->]] by lia; cbn;
    intros [= <-] [= <-] w m; cbn.
  - rewrite lookup_insert_eq. eauto.
  - rewrite lookup_insert_ne by discriminate.
    rewrite lookup_insert_eq. eauto.
  - rewrite lookup_insert_eq. eauto.
Qed.

Lemma registration_places_entities_run :
  aligned idleOnly
  /\ IStateResidencyDataProvider.getInfo cpuProvider !! 1%nat
     = Some ("CPU-little"%string, cpuStates)
  /\ Z.of_nat (length (mPowerEntityInfos idleOnly) + 1) < 2 ^ 31
  /\ mPowerEntityInfos (addStateResidencyDataProvider idleOnly cpuProvider)
       !! 2%nat
     = Some (PowerEntityInfo.mk 2 "CPU-little" cpuStates)
  /\ mStateResidencyDataProviders
       (addStateResidencyDataProvider idleOnly cpuProvider) !! 2%nat
     = Some cpuProvider.
Proof.
  assert (aligned idleOnly) as Hal by reflexivity.
  assert (Z.of_nat (length (mPowerEntityInfos idleOnly) + 1) < 2 ^ 31)
    as Hfit by (vm_compute; reflexivity).
  split; [exact Hal|]. split; [reflexivity|]. split; [exact Hfit|].
  exact (registration_places_entities idleOnly cpuProvider 1%nat
           "CPU-little" cpuStates Hal eq_refl Hfit).
Defined.

Lemma owner_announced_entity_run :
  registered sample
  /\ mPowerEntityInfos sample !! 2%nat
     = Some (PowerEntityInfo.mk 2 "Modem" [PowerEntityStateInfo.mk 0 "IDLE"])
  /\ mStateResidencyDataProviders sample !! 2%nat = Some idleProvider
  /\ ("Modem"%string, [PowerEntityStateInfo.mk 0 "IDLE"])
       ∈ IStateResidencyDataProvider.getInfo idleProvider.
Proof.
  split; [exact sample_registered|]. split; [reflexivity|].
  split; [reflexivity|].
  exact (owner_announced_entity sample 2%nat _ idleProvider sample_registered
           eq_refl eq_refl).
Defined.

Lemma ok_iff_one_result_per_id_run :
  exists f,
    getPowerEntityStateResidencyData sample 0%nat [0; 2] [] = Some f
    /\ exists new,
         aidl_return f = new
         /\ (status f = STATUS_OK
             <-> PowerEntityStateResidencyResult.powerEntityId <$> new
                 = [0; 2]).
Proof.
  destruct (getPowerEntityStateResidencyData sample 0%nat [0; 2] [])
    as [f|] eqn:E; [|vm_compute in E; discriminate E].
  exists f. split; [reflexivity|].
  exact (ok_iff_one_result_per_id sample 0%nat [0; 2] [] f E).
Defined.

Lemma results_follow_request_order_run :
  exists f,
    getPowerEntityStateResidencyData sample 0%nat [1; 7; 2; 0] [] = Some f
    /\ exists new,
         aidl_return f = new
         /\ PowerEntityStateResidencyResult.powerEntityId <$> new
            `sublist_of` [1; 7; 2; 0]
         /\ Forall (fun res =>
                      0 <= PowerEntityStateResidencyResult.powerEntityId res
                        < 3)
              new
         /\ (length new <= 4)%nat.
Proof.
  destruct (getPowerEntityStateResidencyData sample 0%nat [1; 7; 2; 0] [])
    as [f|] eqn:E; [|vm_compute in E; discriminate E].
  exists f. split; [reflexivity|].
  exact (results_follow_request_order sample 0%nat [1; 7; 2; 0] [] f E).
Defined.

Lemma only_invalid_ids_touch_nothing_run :
  [7; -1] <> []
  /\ (forall id, id ∈ [7; -1] -> invalidId sample id = true)
  /\ getPowerEntityStateResidencyData sample 4%nat [7; -1] []
     = Some (mkFrame 4%nat ∅ [] STATUS_BAD_VALUE []).
Proof.
  assert (forall id, id ∈ [7; -1] -> invalidId sample id = true) as Hall.
  { intros id Hin. list_cases Hin; reflexivity. }
  split; [discriminate|]. split; [exact Hall|].
  apply (only_invalid_ids_touch_nothing sample 4%nat [7; -1] []);
    [discriminate|exact Hall].
Defined.

Lemma query_for_all_entities_run :
  aligned filling
  /\ Z.of_nat (length (mPowerEntityInfos filling)) <= 2 ^ 31
  /\ exists f,
       getPowerEntityStateResidencyData filling 0%nat [] [] = Some f
       /\ status f = STATUS_OK
       /\ PowerEntityStateResidencyResult.powerEntityId <$> aidl_return f
          = [0; 1; 2].
Proof.
  assert (aligned filling) as Hal by reflexivity.
  assert (Z.of_nat (length (mPowerEntityInfos filling)) <= 2 ^ 31) as Hfit
    by (vm_compute; discriminate).
  split; [exact Hal|]. split; [exact Hfit|].
  destruct (query_for_all_entities filling 0%nat Hal Hfit)
    as (f & Hf & _ & Hall).
  exists f. split; [exact Hf|]. apply Hall.
  intros id Hid. apply filling_supplies. exact Hid.
Defined.

Lemma one_call_per_provider_run :
  registered filling
  /\ (forall p, p ∈ mStateResidencyDataProviders filling ->
                fillsAll p /\ neverRemoves p)
  /\ exists f,
       getPowerEntityStateResidencyData filling 0%nat [1; 2; 0; 2] []
       = Some f
       /\ fetches f = [(1, "CPU-little"%string); (2, "GPU"%string)]
       /\ forall p1 p2,
            mStateResidencyDataProviders filling !! Z.to_nat 1 = Some p1 ->
            mStateResidencyDataProviders filling !! Z.to_nat 2 = Some p2 ->
            p1 <> p2.
Proof.
  split; [exact filling_registered|]. split; [exact filling_providers|].
  destruct (getPowerEntityStateResidencyData filling 0%nat [1; 2; 0; 2] [])
    as [f|] eqn:E; [|vm_compute in E; discriminate E].
  exists f. split; [reflexivity|].
  assert (fetches f = [(1, "CPU-little"%string); (2, "GPU"%string)]) as Hlog.
  { vm_compute in E. injection E as <-. reflexivity. }
  split; [exact Hlog|]. intros p1 p2.
  apply (one_call_per_provider filling 0%nat [1; 2; 0; 2] [] f
           filling_registered filling_providers E 0%nat 1%nat
           1 "CPU-little"%string 2 "GPU"%string p1 p2);
    [lia|rewrite Hlog; reflexivity|rewrite Hlog; reflexivity].
Defined.

Lemma calls_are_for_requested_ids_run :
  exists f,
    getPowerEntityStateResidencyData sample 0%nat [2; 0; 1] [] = Some f
    /\ (fetches f).*1 `sublist_of` [2; 0; 1].
Proof.
  destruct (getPowerEntityStateResidencyData sample 0%nat [2; 0; 1] [])
    as [f|] eqn:E; [|vm_compute in E; discriminate E].
  exists f. split; [reflexivity|].
  exact (proj1 (calls_are_for_requested_ids sample 0%nat [2; 0; 1] [] f E)).
Defined.

Lemma registration_keeps_old_answers_run :
  aligned idleOnly /\ [0] <> []
  /\ (forall id, id ∈ [0] ->
                 0 <= id < Z.of_nat (length (mPowerEntityInfos idleOnly)))
  /\ getPowerEntityStateResidencyData
       (addStateResidencyDataProvider idleOnly cpuProvider) 0%nat [0] []
     = getPowerEntityStateResidencyData idleOnly 0%nat [0] [].
Proof.
  assert (forall id, id ∈ [0] ->
                     0 <= id < Z.of_nat (length (mPowerEntityInfos idleOnly)))
    as Hall.
  { intros id Hin. list_cases Hin. vm_compute. split; [discriminate|reflexivity]. }
  split; [reflexivity|]. split; [discriminate|]. split; [exact Hall|].
  apply (registration_keeps_old_answers idleOnly cpuProvider 0%nat [0] []);
    [reflexivity|discriminate|exact Hall].
Defined.

Lemma rail_delta_rows_in_full_run :
  exists w' s' out,
    dumpRailEnergy sampleClock sample 3%nat
      (mkStatics [EnergyData.mk 0 1000; EnergyData.mk 0 9] (Some 500000000)
         [] None) [] true
    = Some (w', s', out)
    /\ exists rows,
         out = [railBanner; ElapsedTime 2500; RailHeaderDelta]
                 ++ rows ++ [railEndBanner]
         /\ Forall2
              (fun data row =>
                 exists subsysName railName,
                   railNamesNow sample 3%nat !! EnergyData.railIndex data
                   = Some (subsysName, railName)
                   /\ row = RailRowDelta subsysName railName
                              (toMilliwattSeconds (EnergyData.energyUWs data))
                              (toMilliwattSeconds
                                 (match head (filter
                                                (fun old =>
                                                   EnergyData.railIndex old
                                                   = EnergyData.railIndex data)
                                                [EnergyData.mk 0 1000;
                                                 EnergyData.mk 0 9])
                                  with
                                  | Some old =>
                                      int64_wrap (EnergyData.energyUWs data
                                                  - EnergyData.energyUWs old)
                                  | None => 0
                                  end)))
              [EnergyData.mk 0 1503; EnergyData.mk 1 40] rows.
Proof.
  destruct (dumpRailEnergy sampleClock sample 3%nat
              (mkStatics [EnergyData.mk 0 1000; EnergyData.mk 0 9]
                 (Some 500000000) [] None) [] true)
    as [[[w' s'] out]|] eqn:E; [|vm_compute in E; discriminate E].
  exists w', s', out. split; [reflexivity|].
  exact (rail_delta_rows_in_full sampleClock sample 3%nat _ [] w' s' out E).
Defined.

Lemma unchanged_readings_show_zero_deltas_run :
  NoDup (EnergyData.railIndex
           <$> [EnergyData.mk 0 1503; EnergyData.mk 1 40])
  /\ (railEnergyNow sample 3%nat).2
     = [EnergyData.mk 0 1503; EnergyData.mk 1 40]
  /\ exists w' s' out,
       dumpRailEnergy sampleClock sample 3%nat
         (mkStatics [EnergyData.mk 0 1503; EnergyData.mk 1 40] (Some 0)
            [] None) [] true
       = Some (w', s', out)
       /\ exists elapsed rows,
            out = [railBanner; ElapsedTime elapsed; RailHeaderDelta]
                    ++ rows ++ [railEndBanner]
            /\ length rows = 2%nat
            /\ Forall (fun row =>
                         exists subsysName railName energy,
                           row = RailRowDelta subsysName railName energy
                                   double_zero)
                 rows.
Proof.
  assert (NoDup (EnergyData.railIndex
                   <$> [EnergyData.mk 0 1503; EnergyData.mk 1 40])) as Hnd.
  { cbn. apply NoDup_cons. split; [|apply NoDup_singleton].
    apply not_elem_of_cons. split; [discriminate|apply not_elem_of_nil]. }
  split; [exact Hnd|]. split; [reflexivity|].
  destruct (dumpRailEnergy sampleClock sample 3%nat
              (mkStatics [EnergyData.mk 0 1503; EnergyData.mk 1 40] (Some 0)
                 [] None) [] true)
    as [[[w' s'] out]|] eqn:E; [|vm_compute in E; discriminate E].
  exists w', s', out. split; [reflexivity|].
  exact (unchanged_readings_show_zero_deltas sampleClock sample 3%nat
           (mkStatics [EnergyData.mk 0 1503; EnergyData.mk 1 40] (Some 0)
              [] None)
           [] w' s' out Hnd eq_refl E).
Defined.

Lemma consecutive_rail_deltas_run :
  exists w1 s1 out1 w2 s2 out2,
    dumpRailEnergy sampleClock sample 3%nat freshStatics [] true
    = Some (w1, s1, out1)
    /\ dumpRailEnergy sampleClock sample w1 s1 [] true = Some (w2, s2, out2)
    /\ exists rows,
         out2 = [railBanner; ElapsedTime 0; RailHeaderDelta]
                  ++ rows ++ [railEndBanner]
         /\ length rows = 2%nat.
Proof.
  destruct (dumpRailEnergy sampleClock sample 3%nat freshStatics [] true)
    as [[[w1 s1] out1]|] eqn:E1; [|vm_compute in E1; discriminate E1].
  destruct (dumpRailEnergy sampleClock sample w1 s1 [] true)
    as [[[w2 s2] out2]|] eqn:E2.
  - exists w1, s1, out1, w2, s2, out2.
    split; [reflexivity|]. split; [exact E2|].
    destruct (consecutive_rail_deltas sampleClock sample 3%nat freshStatics
                [] [] w1 s1 out1 w2 s2 out2 E1 E2) as (rows & Hout & Hrows).
    exists rows. split.
    + rewrite Hout. vm_compute in E1. injection E1 as <- _ _. reflexivity.
    + symmetry. apply (Forall2_length _ _ _ Hrows).
  - exfalso. vm_compute in E1. injection E1 as <- <- _.
    vm_compute in E2. discriminate E2.
Defined.

(** The stored record of entity 0, state 0 reads 600 ms, 10 entries, last
    entry at 500; the current one 703, 12 and 650. *)
Example sample_residency_delta :
  (fun r => r.2)
    <$> dumpStateResidency sampleClock sample 3%nat
          (mkStatics [] None
             [PowerEntityStateResidencyResult.mk 0
                [PowerEntityStateResidencyData.mk 0 600 10 500]] (Some 0))
          [] true
  = Some [residencyBanner; ElapsedTime 5000; ResidencyHeaderDelta;
          ResidencyRowDelta "CPU-big" "RUN" 703 103 12 2 650 150;
          ResidencyRowDelta "CPU-big" "SLEEP" 300 0 11 0 690 0;
          ResidencyRowDelta "CPU-little" "RUN" 700 0 12 0 650 0;
          ResidencyRowDelta "CPU-little" "SLEEP" 300 0 11 0 690 0;
          residencyEndBanner].
Proof. vm_compute. reflexivity. Qed.

Lemma residency_deltas_against_stored_record_run :
  exists w' s' out,
    dumpStateResidency sampleClock sample 3%nat
      (mkStatics [] None
         [PowerEntityStateResidencyResult.mk 0
            [PowerEntityStateResidencyData.mk 0 600 10 500]] (Some 0))
      [] true
    = Some (w', s', out)
    /\ exists f elapsed rowss,
         getPowerEntityStateResidencyData sample 3%nat [] [] = Some f
         /\ out = [residencyBanner; ElapsedTime elapsed;
                   ResidencyHeaderDelta]
                    ++ concat rowss ++ [residencyEndBanner]
         /\ length rowss = length (aidl_return f).
Proof.
  destruct (dumpStateResidency sampleClock sample 3%nat
              (mkStatics [] None
                 [PowerEntityStateResidencyResult.mk 0
                    [PowerEntityStateResidencyData.mk 0 600 10 500]] (Some 0))
              [] true)
    as [[[w' s'] out]|] eqn:E; [|vm_compute in E; discriminate E].
  exists w', s', out. split; [reflexivity|].
  destruct (residency_deltas_against_stored_record sampleClock sample 3%nat
              _ [] w' s' out E) as (f & elapsed & rowss & Hf & Hout & Hrows).
  exists f, elapsed, rowss. split; [exact Hf|]. split; [exact Hout|].
  symmetry. apply (Forall2_length _ _ _ Hrows).
Defined.

Lemma name_tables_follow_registry_run :
  registered sample
  /\ Z.of_nat (length (mPowerEntityInfos sample)) <= 2 ^ 31
  /\ mPowerEntityInfos sample !! 1%nat
     = Some (PowerEntityInfo.mk 1 "CPU-little" cpuStates)
  /\ (getEntityStateMaps sample).1 !! 1 = Some "CPU-little"%string
  /\ stateNameAt (getEntityStateMaps sample).2 1 1 = Some "SLEEP"%string
  /\ stateNameAt (getEntityStateMaps sample).2 1 5 = None.
Proof.
  assert (Z.of_nat (length (mPowerEntityInfos sample)) <= 2 ^ 31) as Hfit
    by (vm_compute; discriminate).
  split; [exact sample_registered|]. split; [exact Hfit|].
  split; [reflexivity|].
  destruct (name_tables_follow_registry sample 1%nat _ sample_registered
              Hfit eq_refl) as [Hname Hstate].
  split; [exact Hname|]. split; [exact (Hstate 1)|exact (Hstate 5)].
Defined.

Lemma residency_report_completes_run :
  registered filling
  /\ Z.of_nat (length (mPowerEntityInfos filling)) <= 2 ^ 31
  /\ is_Some (dumpStateResidency sampleClock filling 0%nat freshStatics []
                true).
Proof.
  assert (Z.of_nat (length (mPowerEntityInfos filling)) <= 2 ^ 31) as Hfit
    by (vm_compute; discriminate).
  split; [exact filling_registered|]. split; [exact Hfit|].
  destruct (getPowerEntityStateResidencyData filling 0%nat [] [])
    as [f|] eqn:E; [|vm_compute in E; discriminate E].
  apply (residency_report_completes sampleClock filling 0%nat freshStatics
           [] true f filling_registered Hfit E).
  vm_compute in E. injection E as <-.
  intros result info sr Hin Hi Hsr. cbn in Hin.
  list_cases Hin; cbn in Hi; injection Hi as <-; cbn in Hsr;
    list_cases Hsr; cbn;
    first [apply list_elem_of_here
          |apply list_elem_of_further, list_elem_of_here].
Defined.

Lemma rail_report_completes_iff_rails_listed_run :
  (forall data,
     data ∈ (railEnergyNow sample 3%nat).2 ->
     EnergyData.railIndex data
       ∈ RailInfo.railIndex <$> (getRailInfo sample 3%nat []).2.1)
  /\ is_Some (dumpRailEnergy sampleClock sample 3%nat freshStatics [] false).
Proof.
  assert (forall data,
            data ∈ (railEnergyNow sample 3%nat).2 ->
            EnergyData.railIndex data
              ∈ RailInfo.railIndex <$> (getRailInfo sample 3%nat []).2.1)
    as Hlisted.
  { intros data Hin. cbn in Hin. list_cases Hin; cbn;
      first [apply list_elem_of_here
            |apply list_elem_of_further, list_elem_of_here]. }
  split; [exact Hlisted|].
  apply (rail_report_completes_iff_rails_listed sampleClock sample 3%nat
           freshStatics [] false), Hlisted.
Defined.

Lemma plain_rail_report_rows_run :
  exists w' s' out,
    dumpRailEnergy sampleClock sample 3%nat freshStatics [] false
    = Some (w', s', out)
    /\ w' = 3%nat /\ s' = freshStatics
    /\ exists rows,
         out = [railBanner; RailHeader] ++ rows ++ [railEndBanner]
         /\ length rows = 2%nat.
Proof.
  destruct (dumpRailEnergy sampleClock sample 3%nat freshStatics [] false)
    as [[[w' s'] out]|] eqn:E; [|vm_compute in E; discriminate E].
  exists w', s', out. split; [reflexivity|].
  destruct (plain_rail_report_rows sampleClock sample 3%nat freshStatics []
              w' s' out E) as (Hw & Hs & rows & Hout & Hrows).
  split; [exact Hw|]. split; [exact Hs|].
  exists rows. split; [exact Hout|].
  symmetry. apply (Forall2_length _ _ _ Hrows).
Defined.

Lemma plain_residency_report_rows_run :
  registered sample
  /\ Z.of_nat (length (mPowerEntityInfos sample)) <= 2 ^ 31
  /\ exists w' s' out,
       dumpStateResidency sampleClock sample 3%nat freshStatics [] false
       = Some (w', s', out)
       /\ s' = freshStatics
       /\ exists rowss,
            out = [residencyBanner; ResidencyHeader]
                    ++ concat rowss ++ [residencyEndBanner].
Proof.
  assert (Z.of_nat (length (mPowerEntityInfos sample)) <= 2 ^ 31) as Hfit
    by (vm_compute; discriminate).
  split; [exact sample_registered|]. split; [exact Hfit|].
  destruct (dumpStateResidency sampleClock sample 3%nat freshStatics []
              false)
    as [[[w' s'] out]|] eqn:E; [|vm_compute in E; discriminate E].
  exists w', s', out. split; [reflexivity|].
  destruct (plain_residency_report_rows sampleClock sample 3%nat
              freshStatics [] w' s' out sample_registered Hfit E)
    as (f & rowss & _ & _ & Hs & Hout & _).
  split; [exact Hs|]. exists rowss. exact Hout.
Defined.

End PowerStats.
